(** * go-api-basic: the genesis seed, its request schema, the RBAC check,
      the environment names and the movie store's FindAll.

    A shallow embedding of the Go sources: values are records, the
    database is a record of tables, a transaction is a working copy of the
    tables, and everything the service obtains from outside (the SQL
    driver's answers, fresh UUIDs, the clock, the key generator) is read
    from an oracle, so that every run of the code is a function of the
    oracle and the database it starts from. *)

From Stdlib Require Import List String Ascii ZArith NArith Bool Lia.
From Stdlib Require Import DecimalString.
Import ListNotations.

Local Open Scope string_scope.

(* ================================================================== *)
(** * Error values (Go's [error], package errs) *)
(* ================================================================== *)

Module Errs.

(** [errs.Kind]: the kinds the sources use; [Other] is the kind of an
    error that carries none. *)
Inductive Kind := Other | Validation | Database | Internal | NotExist.

(** A non-nil Go [error]: the driver's "no rows" sentinel, any other
    error of the driver or of a library, an error made from a string, and
    [*errs.Error] with its operation tag, kind and wrapped error. *)
Inductive error :=
| ErrNoRows
| DriverErr (msg : string)
| New (msg : string)
| Err (op : string) (k : Kind) (cause : error).

(** [errs.E(kind, err)]. *)
Definition E (k : Kind) (cause : error) : error := Err "" k cause.

(** [errs.E(kind, "text")]. *)
Definition E_str (k : Kind) (msg : string) : error := Err "" k (New msg).

(** The kind an error is classified by. *)
Definition KindOf (e : error) : Kind :=
  match e with
  | Err _ k _ => k
  | _ => Other
  end.

End Errs.

(** [fmt.Sprintf("%d", n)]. *)
Definition sprint_d (n : Z) : string := NilZero.string_of_int (Z.to_int n).

(* ================================================================== *)
(** * Environment names (package command) *)
(* ================================================================== *)

Module Command.

(** [type Env uint8]. *)
Definition Env := N.

Definition Existing : Env := 0%N.
Definition Local : Env := 1%N.
Definition Staging : Env := 2%N.
Definition Production : Env := 3%N.
Definition Invalid : Env := 99%N.

(** [func (e Env) String() string]. *)
Definition String (e : Env) : string :=
  if N.eqb e Existing then "existing"
  else if N.eqb e Local then "local"
  else if N.eqb e Staging then "staging"
  else if N.eqb e Production then "production"
  else if N.eqb e Invalid then "invalid"
  else "unknown_env_config".

(** [func ParseEnv(envStr string) Env]. *)
Definition ParseEnv (envStr : string) : Env :=
  if String.eqb envStr "existing" then Existing
  else if String.eqb envStr "local" then Local
  else if String.eqb envStr "staging" then Staging
  else if String.eqb envStr "prod" then Production
  else Invalid.

(** The JSON files, relative to the project root. *)
Definition localJSONConfigFile : string := "./config/local.json".
Definition stagingJSONConfigFile : string := "./config/staging.json".
Definition productionJSONConfigFile : string := "./config/production.json".
Definition genesisRequestFile : string := "./config/genesis/request.json".

(** [ConfigFile], its nested structs flattened. *)
Record ConfigFile := mkConfigFile {
  ListenPort : Z;
  MinLogLevel : string;
  LogLevel : string;
  LogErrorStack : bool;
  Host : string;
  Port : Z;
  Name : string;
  User : string;
  Password : string;
  SearchPath : string;
  EncryptionKey : string;
  ProjectID : string;
  RepoLocation : string;
  RepoName : string;
  ImageID : string;
  Tag : string;
  InstanceName : string;
  InstanceConnectionName : string;
  ServiceName : string
}.

(** [ConfigFile{}]. *)
Definition ConfigFile_zero : ConfigFile :=
  mkConfigFile 0 "" "" false "" 0 "" "" "" "" "" "" "" "" "" "" "" "" "".

(** What lies outside the package: [os.ReadFile], [json.Unmarshal] into a
    zero [ConfigFile], and [os.Setenv], which may refuse. *)
Record OS := mkOS {
  ReadFile : string -> Errs.error + string;
  Unmarshal : string -> Errs.error + ConfigFile;
  Setenv_err : string -> string -> option Errs.error
}.

(** [func NewConfigFile(env Env) (ConfigFile, error)]. *)
Definition NewConfigFile (os : OS) (env : Env) : Errs.error + ConfigFile :=
  let load (path : string) :=
    match ReadFile os path with
    | inl err => inl err
    | inr b => Unmarshal os b
    end in
  if N.eqb env Existing then inr ConfigFile_zero
  else if N.eqb env Local then load localJSONConfigFile
  else if N.eqb env Staging then load stagingJSONConfigFile
  else if N.eqb env Production then load productionJSONConfigFile
  else inl (Errs.E_str Errs.Other "Invalid environment").

(** The names of the environment variables; the constants that hold them
    are declared outside these sources. *)
Record EnvNames := mkEnvNames {
  logLevelMinEnv : string;
  loglevelEnv : string;
  logErrorStackEnv : string;
  portEnv : string;
  DBHostEnv : string;
  DBPortEnv : string;
  DBNameEnv : string;
  DBUserEnv : string;
  DBPasswordEnv : string;
  DBSearchPathEnv : string;
  encryptKeyEnv : string
}.

(** The process environment, the latest assignment first. *)
Definition Environ : Type := list (string * string).

(** [os.Getenv]. *)
Fixpoint Getenv (env : Environ) (k : string) : option string :=
  match env with
  | [] => None
  | (k', v) :: rest => if String.eqb k' k then Some v else Getenv rest k
  end.

(** [fmt.Sprintf("%t", b)]. *)
Definition sprint_t (b : bool) : string := if b then "true" else "false".

(** The assignments of [overrideEnv], in the order it makes them. *)
Definition assignments (nm : EnvNames) (f : ConfigFile)
  : list (string * string) :=
  [ (logLevelMinEnv nm, MinLogLevel f);
    (loglevelEnv nm, LogLevel f);
    (logErrorStackEnv nm, sprint_t (LogErrorStack f));
    (portEnv nm, sprint_d (ListenPort f));
    (DBHostEnv nm, Host f);
    (DBPortEnv nm, sprint_d (Port f));
    (DBNameEnv nm, Name f);
    (DBUserEnv nm, User f);
    (DBPasswordEnv nm, Password f);
    (DBSearchPathEnv nm, SearchPath f);
    (encryptKeyEnv nm, EncryptionKey f) ].

(** [err = os.Setenv(k, v); if err != nil { return err }], one assignment
    after the other. *)
Fixpoint setenv_all (os : OS) (l : list (string * string)) (env : Environ)
  : option Errs.error * Environ :=
  match l with
  | [] => (None, env)
  | (k, v) :: rest =>
      match Setenv_err os k v with
      | Some err => (Some err, env)
      | None => setenv_all os rest ((k, v) :: env)
      end
  end.

(** [func overrideEnv(f ConfigFile) error]. *)
Definition overrideEnv (os : OS) (nm : EnvNames) (f : ConfigFile)
           (env : Environ) : option Errs.error * Environ :=
  setenv_all os (assignments nm f) env.

(** [func LoadEnv(env Env) (err error)]. *)
Definition LoadEnv (os : OS) (nm : EnvNames) (e : Env) (env : Environ)
  : option Errs.error * Environ :=
  match NewConfigFile os e with
  | inl err => (Some err, env)
  | inr f => overrideEnv os nm f env
  end.

(** [ConfigCueFilePaths]. *)
Record ConfigCueFilePaths := mkConfigCueFilePaths {
  Input : list string;
  Output : string
}.

(** [func CUEPaths(env Env) (ConfigCueFilePaths, error)]. *)
Definition CUEPaths (env : Env) : Errs.error + ConfigCueFilePaths :=
  let schemaInput := "./config/cue/schema.cue" in
  let localInput := "./config/cue/local.cue" in
  let stagingInput := "./config/cue/staging.cue" in
  let prodInput := "./config/cue/production.cue" in
  if N.eqb env Local
  then inr (mkConfigCueFilePaths [schemaInput; localInput]
                                 localJSONConfigFile)
  else if N.eqb env Staging
  then inr (mkConfigCueFilePaths [schemaInput; stagingInput]
                                 stagingJSONConfigFile)
  else if N.eqb env Production
  then inr (mkConfigCueFilePaths [schemaInput; prodInput]
                                 productionJSONConfigFile)
  else inl (Errs.E_str Errs.Other
              ("There is no path configuration for the " ++ String env
               ++ " environment")).

(** [func CUEGenesisPaths() ConfigCueFilePaths]. *)
Definition CUEGenesisPaths : ConfigCueFilePaths :=
  mkConfigCueFilePaths
    ["./config/genesis/cue/schema.cue"; "./config/genesis/cue/genesis.cue"]
    genesisRequestFile.

End Command.

(* ================================================================== *)
(** * The movie store's FindAll (package moviestore) *)
(* ================================================================== *)

Module Moviestore.

(** [movie.Movie], the thirteen scanned columns. *)
Record Movie := mkMovie {
  ID : N;
  ExternalID : string;
  Title : string;
  Year : Z;
  Rated : string;
  Released : Z;
  RunTime : Z;
  Director : string;
  Writer : string;
  CreateUsername : string;
  CreateTimestamp : Z;
  UpdateUsername : string;
  UpdateTimestamp : Z
}.

(** What [database/sql] hands back for the query: [QueryContext] fails,
    or it yields a cursor.  The cursor lists, for each row [rows.Next]
    advances to, what [rows.Scan] gives for it, and what [rows.Close] and
    [rows.Err] report once the loop is over. *)
Record Rows := mkRows {
  scans : list (Errs.error + Movie);
  close_err : option Errs.error;
  rows_err : option Errs.error
}.

Definition QueryResult : Type := (Errs.error + Rows)%type.

(** The cursor of a driver that answers without any error over a table. *)
Definition healthy (table : list Movie) : QueryResult :=
  inr (mkRows (map inr table) None None).

Definition op : string := "moviestore/DB.FindAll".

(** The [for rows.Next()] loop: scan each row and append it to [s]; the
    first failing scan returns. *)
Fixpoint scan_all (l : list (Errs.error + Movie)) (s : list Movie)
  : Errs.error + list Movie :=
  match l with
  | [] => inr s
  | inl e :: _ => inl (Errs.Err op Errs.Database e)
  | inr m :: rest => scan_all rest (s ++ [m])
  end.

(** [func (d *DB) FindAll(ctx) ([]*movie.Movie, error)]. *)
Definition FindAll (q : QueryResult) : Errs.error + list Movie :=
  match q with
  | inl e => inl (Errs.Err op Errs.Database e)
  | inr rows =>
      match scan_all (scans rows) [] with
      | inl e => inl e
      | inr s =>
          match close_err rows with
          | Some _ =>
              (* the source wraps [err], which is nil here, not [rerr];
                 what [errs.E] makes of a nil error is not in the sources
                 and is taken to be an error over the text of nil *)
              inl (Errs.Err op Errs.Database (Errs.New "<nil>"))
          | None =>
              match rows_err rows with
              | Some e => inl (Errs.Err op Errs.Database e)
              | None =>
                  if Nat.eqb (List.length s) 0
                  then inl (Errs.Err op Errs.Validation
                              (Errs.New "No rows returned"))
                  else inr s
              end
          end
      end
  end.

(** [func (d *DB) FindByID(ctx, extlID)], on what
    [row.Scan] gives for the query: the movie, the driver's "no rows", or
    another error. *)
Definition opFindByID : string := "moviestore/DB.FindByID".

Definition FindByID (scan : Errs.error + Movie) : Errs.error + Movie :=
  match scan with
  | inl Errs.ErrNoRows =>
      inl (Errs.Err opFindByID Errs.NotExist
             (Errs.New "No record found for given ID"))
  | inl err => inl (Errs.Err opFindByID Errs.Other err)
  | inr m => inr m
  end.

(** [func (t *Tx) Delete(ctx, m) error], on what [ExecContext] gives: an
    error, or a result whose [RowsAffected] is an error or a count. *)
Definition opDelete : string := "moviestore/Tx.Delete".

Definition Delete (exec : Errs.error + (Errs.error + Z))
  : option Errs.error :=
  match exec with
  | inl execErr => Some (Errs.Err opDelete Errs.Database execErr)
  | inr (inl err) => Some (Errs.Err opDelete Errs.Database err)
  | inr (inr rowsAffected) =>
      if Z.eqb rowsAffected 0
      then Some (Errs.Err opDelete Errs.Database
                   (Errs.New "No Rows Deleted"))
      else if Z.ltb 1 rowsAffected
      then Some (Errs.Err opDelete Errs.Database
                   (Errs.New "Too Many Rows Deleted"))
      else None
  end.

(** The cursor of the update statement: for each row it returns, what
    [rows.Scan] gives for the three returned columns, and what [rows.Err]
    reports after the loop. *)
Record Returned := mkReturned {
  r_scans : list (Errs.error + (N * string * Z));
  r_err : option Errs.error
}.

Definition opUpdate : string := "moviestore/Tx.Update".

(** [rows.Scan(&m.ID, &m.CreateUsername, &m.CreateTimestamp)]. *)
Definition scan_returning (m : Movie) (r : N * string * Z) : Movie :=
  let '(id, cu, ct) := r in
  mkMovie id (ExternalID m) (Title m) (Year m) (Rated m) (Released m)
          (RunTime m) (Director m) (Writer m) cu ct
          (UpdateUsername m) (UpdateTimestamp m).

(** The [for rows.Next()] loop of [Update]. *)
Fixpoint scan_update (l : list (Errs.error + (N * string * Z))) (m : Movie)
  : Errs.error + Movie :=
  match l with
  | [] => inr m
  | inl err :: _ => inl (Errs.Err opUpdate Errs.Other err)
  | inr r :: rest => scan_update rest (scan_returning m r)
  end.

(** [func (t *Tx) Update(ctx, m) error], on what [PrepareContext] and
    [QueryContext] give; the movie it returns is [*m] as the call leaves
    it. *)
Definition Update (prepare : option Errs.error)
           (query : Errs.error + Returned) (m : Movie)
  : Errs.error + Movie :=
  match prepare with
  | Some err => inl (Errs.Err opUpdate Errs.Other err)
  | None =>
      match query with
      | inl err => inl (Errs.Err opUpdate Errs.Other err)
      | inr rows =>
          match scan_update (r_scans rows) m with
          | inl e => inl e
          | inr m' =>
              match r_err rows with
              | Some err => inl (Errs.Err opUpdate Errs.Other err)
              | None =>
                  if N.eqb (ID m') 0
                  then inl (Errs.Err opUpdate Errs.Database
                              (Errs.New "Invalid ID - no records updated"))
                  else inr m'
              end
          end
      end
  end.

End Moviestore.

(* ================================================================== *)
(** * The genesis request schema (config/genesis/cue/schema.cue) *)
(* ================================================================== *)

Module Schema.

(** What a field of the document may hold: nothing (the field is not
    specified), or a scalar. *)
Inductive Value :=
| Unset
| Null
| Bool (b : bool)
| Num (n : Z)
| Str (s : string).

(** The constraint [!=""]: a specified string other than the empty one. *)
Definition non_empty (v : Value) : bool :=
  match v with
  | Str s => negb (String.eqb s "")
  | _ => false
  end.

(** The constraint [bool]. *)
Definition is_bool (v : Value) : bool :=
  match v with
  | Bool _ => true
  | _ => false
  end.

(** Documents of the shape of [#User], [#Permission], [#Role] and of the
    request itself; a definition is closed, so a document has these
    fields and no other. *)
Record User := mkUser {
  email : Value;
  first_name : Value;
  last_name : Value
}.

Record Permission := mkPermission {
  resource : Value;
  operation : Value;
  description : Value;
  active : Value
}.

Record Role := mkRole {
  role_cd : Value;
  role_description : Value;
  role_active : Value;
  role_permissions : list Permission
}.

Record Request := mkRequest {
  user : User;
  permissions : list Permission;
  roles : list Role
}.

(** [#User]. *)
Definition User_ok (u : User) : bool :=
  non_empty (email u) && non_empty (first_name u) && non_empty (last_name u).

(** [#Permission]. *)
Definition Permission_ok (p : Permission) : bool :=
  non_empty (resource p) && non_empty (operation p)
  && non_empty (description p) && is_bool (active p).

(** [#Role]: its own fields, and [permissions: [...#Permission]]. *)
Definition Role_ok (r : Role) : bool :=
  non_empty (role_cd r) && non_empty (role_description r)
  && is_bool (role_active r) && forallb Permission_ok (role_permissions r).

(** [#Auth]: [permissions: [...#Permission]] and [roles: [...#Role]]. *)
Definition Auth_ok (ps : list Permission) (rs : list Role) : bool :=
  forallb Permission_ok ps && forallb Role_ok rs.

(** The request unified with the schema: [user: #User] and [#Auth]. *)
Definition accepts (d : Request) : bool :=
  User_ok (user d) && Auth_ok (permissions d) (roles d).

(** Every permission a document mentions, at top level or under a role. *)
Definition all_permissions (d : Request) : list Permission :=
  permissions d ++ flat_map role_permissions (roles d).

(** The claim's words for the two constraints. *)
Definition NonEmptyString (v : Value) : Prop :=
  exists s, v = Str s /\ s <> "".

Definition Boolean (v : Value) : Prop := exists b, v = Bool b.

(** ** The request document of the repository (config/genesis/request.json) *)

Definition perm (res oper desc : string) : Permission :=
  mkPermission (Str res) (Str oper) (Str desc) (Bool true).

Definition example_permissions : list Permission :=
  [ perm "/api/v1/ping" "GET"
      "allows for calling the ping service to determine if system is up and running";
    perm "/api/v1/logger" "GET" "allows for reading the logger state";
    perm "/api/v1/logger" "PUT" "allows for updating the logger state";
    perm "/api/v1/orgs" "POST" "allows for creating an organization";
    perm "/api/v1/orgs" "PUT" "allows for updating an organization";
    perm "/api/v1/orgs" "DELETE" "allows for deleting an organization";
    perm "/api/v1/orgs" "GET" "allows for finding all organizations";
    perm "/api/v1/orgs/{extlID}" "GET"
      "allows for finding an organization by external ID";
    perm "/api/v1/apps" "POST" "allows for creating an app";
    perm "/api/v1/permissions" "POST" "allows for creating a permission";
    perm "/api/v1/permissions" "GET" "allows for finding all permissions" ].

Definition example_request : Request :=
  mkRequest
    (mkUser (Str "otto.maddox@gmail.com") (Str "Otto") (Str "Maddox"))
    example_permissions
    [ mkRole (Str "sysAdmin") (Str "System administrator role.") (Bool true)
        example_permissions ].

End Schema.

(* ================================================================== *)
(** * The RBAC authorizer *)
(* ================================================================== *)

Module Authz.

(** Permission and Role of the data model. *)
Record Permission := mkPermission {
  Resource : string;
  Operation : string;
  Description : string;
  Active : bool
}.

Record Role := mkRole {
  Code : string;
  RoleDescription : string;
  RoleActive : bool;
  Permissions : list Permission
}.

(** The principal: the (User, App) pair a request is made for, with the
    roles it holds. *)
Record Principal := mkPrincipal {
  Username : string;
  AppName : string;
  Roles : list Role
}.

(** A permission matches when it is active and both strings are equal to
    the requested ones, character for character. *)
Definition matches (resource operation : string) (p : Permission) : bool :=
  Active p && String.eqb (Resource p) resource
  && String.eqb (Operation p) operation.

Definition grants (resource operation : string) (r : Role) : bool :=
  RoleActive r && existsb (matches resource operation) (Permissions r).

(** Modelled from the spec: [Authorize(principal, resource, operation)],
    the authorizer of section 4.2, which is not among the sources: allow
    iff one of the principal's roles is active and holds an active
    permission with exactly this resource and this operation. *)
Definition Authorize (p : Principal) (resource operation : string) : bool :=
  existsb (grants resource operation) (Roles p).

(** Modelled from the spec: loading the permission and role graph from a
    schema-validated document (the loader is not among the sources). *)
Definition text (v : Schema.Value) : string :=
  match v with Schema.Str s => s | _ => "" end.

Definition flag (v : Schema.Value) : bool :=
  match v with Schema.Bool b => b | _ => false end.

Definition load_permission (p : Schema.Permission) : Permission :=
  mkPermission (text (Schema.resource p)) (text (Schema.operation p))
               (text (Schema.description p)) (flag (Schema.active p)).

Definition load_role (r : Schema.Role) : Role :=
  mkRole (text (Schema.role_cd r)) (text (Schema.role_description r))
         (flag (Schema.role_active r))
         (map load_permission (Schema.role_permissions r)).

Definition load_roles (d : Schema.Request) : list Role :=
  map load_role (Schema.roles d).

(** Modelled from the spec: the input boundary of section 6 (the code
    that reads the request is not among the sources): the document is
    checked against the schema before it is handed on; one the schema
    refuses is a [Validation] error and nothing of it is loaded. *)
Definition load (d : Schema.Request) : Errs.error + list Role :=
  if Schema.accepts d then inr (load_roles d)
  else inl (Errs.E_str Errs.Validation "request does not match the schema").

(** The roles of a document a principal holds, by role code. *)
Definition holding (d : Schema.Request) (codes : list string) : list Role :=
  filter (fun r => existsb (String.eqb (Code r)) codes) (load_roles d).

(** A principal holding role [sysAdmin] of the example document. *)
Definition sysAdmin_principal : Principal :=
  mkPrincipal "otto.maddox@gmail.com" "WOPR"
              (holding Schema.example_request ["sysAdmin"]).

End Authz.

(* ================================================================== *)
(** * The entity model (packages org, app, person, user, audit) *)
(* ================================================================== *)

(** [uuid.UUID], a 128-bit identifier; [uuid.Nil] is zero. *)
Definition UUID := N.
Definition uuid_Nil : UUID := 0%N.

(** [time.Time], as seconds since the Unix epoch (UTC). *)
Definition Time := Z.

(** [time.Date(2099, 12, 31, 0, 0, 0, 0, time.UTC)]. *)
Definition Date_2099_12_31 : Time := 4102358400%Z.

Module org.

Record Kind := mkKind {
  Kind_ID : UUID;
  Kind_ExternalID : string;
  Kind_Description : string
}.

(** [org.Kind{}], the zero value. *)
Definition Kind_zero : Kind := mkKind uuid_Nil "" "".

Record Org := mkOrg {
  ID : UUID;
  ExternalID : string;
  Name : string;
  Description : string;
  Kind_ : Kind
}.

(** [o.Kind = k]: assignment to one field of a struct value. *)
Definition with_Kind (o : Org) (k : Kind) : Org :=
  mkOrg (ID o) (ExternalID o) (Name o) (Description o) k.

End org.

Module app.

(** [app.APIKey]: the sealed key and the date it stops being valid. *)
Record APIKey := mkAPIKey {
  Ciphertext : string;
  DeactivationDate : Time
}.

Record App := mkApp {
  ID : UUID;
  ExternalID : string;
  Org : org.Org;
  Name : string;
  Description : string;
  APIKeys : list APIKey
}.

(** [a.APIKeys = append(a.APIKeys, key)]. *)
Definition with_key (a : App) (k : APIKey) : App :=
  mkApp (ID a) (ExternalID a) (Org a) (Name a) (Description a)
        (APIKeys a ++ [k]).

End app.

Module person.

Record Person := mkPerson {
  ID : UUID;
  Org : org.Org
}.

Record Profile := mkProfile {
  Profile_ID : UUID;
  Person_ : Person;
  FirstName : string;
  LastName : string
}.

End person.

Module user.

Record User := mkUser {
  ID : UUID;
  Username : string;
  Org : org.Org;
  Profile : person.Profile
}.

End user.

Module audit.

Record Audit := mkAudit {
  App : app.App;
  User : user.User;
  Moment : Time
}.

Record SimpleAudit := mkSimpleAudit {
  First : Audit;
  Last : Audit
}.

End audit.

(** [strings.TrimSpace]: drop the white space at both ends. *)
Definition is_space (c : ascii) : bool :=
  let n := nat_of_ascii c in
  Nat.eqb n 32 || (Nat.leb 9 n && Nat.leb n 13).

Fixpoint trim_left (s : string) : string :=
  match s with
  | String c r => if is_space c then trim_left r else s
  | EmptyString => EmptyString
  end.

Fixpoint trim_right (s : string) : string :=
  match s with
  | String c r =>
      match trim_right r with
      | EmptyString => if is_space c then EmptyString else String c EmptyString
      | r' => String c r'
      end
  | EmptyString => EmptyString
  end.

Definition TrimSpace (s : string) : string := trim_right (trim_left s).

(* ================================================================== *)
(** * The datastore (packages datastore, orgstore, appstore, ...) *)
(* ================================================================== *)

Module datastore.

(** [uuid.NullUUID]. *)
Record NullUUID := mkNullUUID { UUID_ : UUID; Valid : bool }.

(** Modelled from the spec: [datastore.NewNullUUID] (not among the
    sources): the id as a nullable column value, null for [uuid.Nil]. *)
Definition NewNullUUID (i : UUID) : NullUUID :=
  if N.eqb i uuid_Nil then mkNullUUID uuid_Nil false else mkNullUUID i true.

(** The six audit columns every table carries: which app and user
    created the row and when, and the same for its latest update. *)
Record Stamp := mkStamp {
  CreateAppID : UUID;
  CreateUserID : NullUUID;
  CreateTimestamp : Time;
  UpdateAppID : UUID;
  UpdateUserID : NullUUID;
  UpdateTimestamp : Time
}.

(** The columns a row has when one audit is both its creation and its
    latest update. *)
Definition stamp_of (a : audit.Audit) : Stamp :=
  mkStamp (app.ID (audit.App a)) (NewNullUUID (user.ID (audit.User a)))
          (audit.Moment a)
          (app.ID (audit.App a)) (NewNullUUID (user.ID (audit.User a)))
          (audit.Moment a).

(** The columns of a row created by [First] and last updated by [Last]. *)
Definition stamp_of_simple (sa : audit.SimpleAudit) : Stamp :=
  mkStamp (app.ID (audit.App (audit.First sa)))
          (NewNullUUID (user.ID (audit.User (audit.First sa))))
          (audit.Moment (audit.First sa))
          (app.ID (audit.App (audit.Last sa)))
          (NewNullUUID (user.ID (audit.User (audit.Last sa))))
          (audit.Moment (audit.Last sa)).

End datastore.

Module orgstore.

(** [orgstore.CreateOrgKindParams]: the three columns the service reads
    back, and the audit columns. *)
Record CreateOrgKindParams := mkCreateOrgKindParams {
  OrgKindID : UUID;
  OrgKindExtlID : string;
  OrgKindDesc : string;
  OrgKindStamp : datastore.Stamp
}.

(** [orgstore.CreateOrgParams]. *)
Record CreateOrgParams := mkCreateOrgParams {
  OrgID : UUID;
  OrgExtlID : string;
  OrgName : string;
  OrgDescription : string;
  OrgKindID_ : UUID;
  OrgStamp : datastore.Stamp
}.

End orgstore.

Module appstore.

(** [appstore.CreateAppParams], field for field. *)
Record CreateAppParams := mkCreateAppParams {
  AppID : UUID;
  OrgID : UUID;
  AppExtlID : string;
  AppName : string;
  AppDescription : string;
  CreateAppID : UUID;
  CreateUserID : datastore.NullUUID;
  CreateTimestamp : Time;
  UpdateAppID : UUID;
  UpdateUserID : datastore.NullUUID;
  UpdateTimestamp : Time
}.

(** [appstore.CreateAppAPIKeyParams], field for field. *)
Record CreateAppAPIKeyParams := mkCreateAppAPIKeyParams {
  ApiKey : string;
  Key_AppID : UUID;
  DeactvDate : Time;
  Key_CreateAppID : UUID;
  Key_CreateUserID : datastore.NullUUID;
  Key_CreateTimestamp : Time;
  Key_UpdateAppID : UUID;
  Key_UpdateUserID : datastore.NullUUID;
  Key_UpdateTimestamp : Time
}.

(** The audit columns of the two rows. *)
Definition AppStamp (p : CreateAppParams) : datastore.Stamp :=
  datastore.mkStamp (CreateAppID p) (CreateUserID p) (CreateTimestamp p)
                    (UpdateAppID p) (UpdateUserID p) (UpdateTimestamp p).

Definition KeyStamp (p : CreateAppAPIKeyParams) : datastore.Stamp :=
  datastore.mkStamp (Key_CreateAppID p) (Key_CreateUserID p)
                    (Key_CreateTimestamp p)
                    (Key_UpdateAppID p) (Key_UpdateUserID p)
                    (Key_UpdateTimestamp p).

End appstore.

Module personstore.

Record CreatePersonParams := mkCreatePersonParams {
  PersonID : UUID;
  OrgID : UUID;
  PersonStamp : datastore.Stamp
}.

Record CreatePersonProfileParams := mkCreatePersonProfileParams {
  PersonProfileID : UUID;
  Profile_PersonID : UUID;
  FirstName : string;
  LastName : string;
  ProfileStamp : datastore.Stamp
}.

End personstore.

Module userstore.

Record CreateUserParams := mkCreateUserParams {
  UserID : UUID;
  Username : string;
  OrgID : UUID;
  PersonProfileID : UUID;
  UserStamp : datastore.Stamp
}.

End userstore.

(** ** The database, the driver and the world a run acts on *)

Module store.

(** The tables, each as the list of its rows in insertion order. *)
Record DB := mkDB {
  org_kind : list orgstore.CreateOrgKindParams;
  org : list orgstore.CreateOrgParams;
  app : list appstore.CreateAppParams;
  app_api_key : list appstore.CreateAppAPIKeyParams;
  person : list personstore.CreatePersonParams;
  person_profile : list personstore.CreatePersonProfileParams;
  users : list userstore.CreateUserParams
}.

Definition empty : DB := mkDB [] [] [] [] [] [] [].

(** Table-wise concatenation: the rows of [e] after those of [d]. *)
Definition db_app (d e : DB) : DB :=
  mkDB (org_kind d ++ org_kind e) (org d ++ org e) (app d ++ app e)
       (app_api_key d ++ app_api_key e) (person d ++ person e)
       (person_profile d ++ person_profile e) (users d ++ users e).

(** The insert statements the seed issues. *)
Inductive Stmt :=
| CreateOrgKind (p : orgstore.CreateOrgKindParams)
| CreateOrg (p : orgstore.CreateOrgParams)
| CreateApp (p : appstore.CreateAppParams)
| CreateAppAPIKey (p : appstore.CreateAppAPIKeyParams)
| CreatePerson (p : personstore.CreatePersonParams)
| CreatePersonProfile (p : personstore.CreatePersonProfileParams)
| CreateUser (p : userstore.CreateUserParams).

(** Everything sent to the driver. *)
Inductive Call :=
| Query (name arg : string)
| Exec (s : Stmt)
| Begin
| Commit.

(** The driver's answer: an error, or success with the count of rows the
    statement affected (of no meaning for a query, begin or commit). *)
Inductive Outcome :=
| Fails (msg : string)
| Affects (n : Z).

(** What lies outside the program.  Each is asked with the number of
    questions put so far, so two askings may be answered differently. *)
Record Oracle := mkOracle {
  driver : nat -> Call -> Outcome;
  new_uuid : nat -> UUID;           (* uuid.New() *)
  new_id : nat -> string;           (* secure.NewID() *)
  now : nat -> Time;                (* time.Now() *)
  new_key : nat -> string + string  (* key generation: error or ciphertext *)
}.

(** The transaction a run holds. *)
Inductive TxState :=
| NoTx
| Open (pending : DB)
| Committed
| RolledBack.

(** What a run did, in order. *)
Inductive Event :=
| EvCall (c : Call) (o : Outcome)
| EvKeyGen (r : string + string)
| EvRollback.

Record World := mkWorld {
  db : DB;          (* the committed tables *)
  txn : TxState;
  ticks : nat;      (* questions put to the oracle so far *)
  log : list Event
}.

(** A world in which nothing has run yet. *)
Definition start (d : DB) : World := mkWorld d NoTx 0 [].

(** The rows a statement writes when it affects [n] rows. *)
Definition insert_rows (s : Stmt) (n : nat) : DB :=
  match s with
  | CreateOrgKind p => mkDB (repeat p n) [] [] [] [] [] []
  | CreateOrg p => mkDB [] (repeat p n) [] [] [] [] []
  | CreateApp p => mkDB [] [] (repeat p n) [] [] [] []
  | CreateAppAPIKey p => mkDB [] [] [] (repeat p n) [] [] []
  | CreatePerson p => mkDB [] [] [] [] (repeat p n) [] []
  | CreatePersonProfile p => mkDB [] [] [] [] [] (repeat p n) []
  | CreateUser p => mkDB [] [] [] [] [] [] (repeat p n)
  end.

End store.

(* ================================================================== *)
(** * Running code against the world *)
(* ================================================================== *)

Module run.
Import store.

(** A Go function that returns [(A, error)] and may act on the world: the
    left result is its non-nil error. *)
Definition M (A : Type) : Type := World -> (Errs.error + A) * World.

Definition ret {A} (a : A) : M A := fun w => (inr a, w).

(** [return ..., err]. *)
Definition fail {A} (e : Errs.error) : M A := fun w => (inl e, w).

(** [x, err := c; if err != nil { return h(err) }; k(x)]. *)
Definition bind_or {A B} (c : M A) (h : Errs.error -> M B) (k : A -> M B)
  : M B :=
  fun w =>
    match c w with
    | (inl e, w') => h e w'
    | (inr a, w') => k a w'
    end.

(** [x, err := c; if err != nil { return err }; k(x)]. *)
Definition bind {A B} (c : M A) (k : A -> M B) : M B := bind_or c fail k.

(** [x, err := c; if err != nil { x = h(err) }]: go on after an error. *)
Definition catch {A} (c : M A) (h : Errs.error -> M A) : M A :=
  bind_or c h ret.

Declare Scope go_scope.
Delimit Scope go_scope with go.

Notation "x <- c ;; k" := (bind c (fun x => k))
  (at level 61, c at next level, right associativity) : go_scope.
Notation "' pat <- c ;; k" :=
  (bind c (fun x => match x with pat => k end))
  (at level 61, pat pattern, c at next level, right associativity) : go_scope.
Notation "x <- c 'onerr' h ;; k" := (bind_or c h (fun x => k))
  (at level 61, c at next level, h at next level, right associativity)
  : go_scope.

Local Open Scope go_scope.

(** Put one question to the oracle: the world's count of questions. *)
Definition tick : M nat :=
  fun w => (inr (ticks w), mkWorld (db w) (txn w) (S (ticks w)) (log w)).

Definition emit (ev : Event) : M unit :=
  fun w => (inr tt, mkWorld (db w) (txn w) (ticks w) (log w ++ [ev])).

Definition set_txn (t : TxState) : M unit :=
  fun w => (inr tt, mkWorld (db w) t (ticks w) (log w)).

Definition get_txn : M TxState := fun w => (inr (txn w), w).

Definition get_db : M DB := fun w => (inr (db w), w).

Definition set_db (d : DB) : M unit :=
  fun w => (inr tt, mkWorld d (txn w) (ticks w) (log w)).

(** [uuid.New()], [secure.NewID()] and [time.Now()]. *)
Definition uuid_New (o : Oracle) : M UUID := n <- tick ;; ret (new_uuid o n).
Definition secure_NewID (o : Oracle) : M string :=
  n <- tick ;; ret (new_id o n).
Definition time_Now (o : Oracle) : M Time := n <- tick ;; ret (now o n).

(** Send a call to the driver, log the call with its answer, and return
    the affected-row count or the driver's error. *)
Definition ask (o : Oracle) (c : Call) : M Z :=
  n <- tick ;;
  let out := driver o n c in
  _ <- emit (EvCall c out) ;;
  match out with
  | Fails msg => fail (Errs.DriverErr msg)
  | Affects k => ret k
  end.

(** Modelled from the spec: the generated insert methods of the store
    packages run on the transaction (they are not among the sources):
    [New(tx).CreateX(ctx, params)] returns the driver's error, or the
    count of rows affected, which are then in the transaction's tables.
    On a transaction that is no longer open the driver is not reached. *)
Definition tx_exec (o : Oracle) (s : Stmt) : M Z :=
  t <- get_txn ;;
  match t with
  | Open p =>
      n <- ask o (Exec s) ;;
      _ <- set_txn (Open (db_app p (insert_rows s (Z.to_nat n)))) ;;
      ret n
  | _ => fail (Errs.New "tx is closed")
  end.

(** Modelled from the spec: [Datastorer.BeginTx] (section 6; not among the
    sources): a transaction that starts from the committed tables; a
    failure of the store is a [Database] error. *)
Definition BeginTx (o : Oracle) : M unit :=
  _ <- ask o Begin onerr (fun err => fail (Errs.E Errs.Database err)) ;;
  d <- get_db ;;
  set_txn (Open d).

(** Modelled from the spec: [Datastorer.CommitTx] (section 6): the
    pending tables become the committed ones; when the commit fails the
    store discards the transaction and the error is of [Database] kind. *)
Definition CommitTx (o : Oracle) : M unit :=
  t <- get_txn ;;
  match t with
  | Open p =>
      _ <- ask o Commit
             onerr (fun err => _ <- set_txn RolledBack ;;
                               fail (Errs.E Errs.Database err)) ;;
      _ <- set_db p ;;
      set_txn Committed
  | _ => fail (Errs.E Errs.Database (Errs.New "tx is closed"))
  end.

(** Modelled from the spec: [Datastorer.RollbackTx(ctx, tx, cause)]
    (section 6): discard the transaction and return the cause, so that
    the caller's error is preserved. *)
Definition RollbackTx {A} (cause : Errs.error) : M A :=
  t <- get_txn ;;
  _ <- emit EvRollback ;;
  _ <- match t with
       | Open _ => set_txn RolledBack
       | _ => ret tt
       end ;;
  fail cause.

(** Modelled from the spec: the two precondition reads of section 4.1,
    made on the pool, that is on the committed tables (the generated
    query methods are not among the sources).
    [FindOrgKindByExtlID]: the org-kind row with this external id, or
    the driver's "no rows". *)
Definition FindOrgKindByExtlID (o : Oracle) (extlID : string)
  : M orgstore.CreateOrgKindParams :=
  _ <- ask o (Query "FindOrgKindByExtlID" extlID) ;;
  d <- get_db ;;
  match find (fun k => String.eqb (orgstore.OrgKindExtlID k) extlID)
             (org_kind d) with
  | Some k => ret k
  | None => fail Errs.ErrNoRows
  end.

(** An org row is of the kind with external id [extlID] when its kind
    column names an org-kind row with that external id. *)
Definition org_of_kind (d : DB) (extlID : string)
           (r : orgstore.CreateOrgParams) : bool :=
  existsb (fun k => N.eqb (orgstore.OrgKindID k) (orgstore.OrgKindID_ r)
                    && String.eqb (orgstore.OrgKindExtlID k) extlID)
          (org_kind d).

(** [FindOrgsByKindExtlID]: the org rows of the kind with this external
    id; none is not an error. *)
Definition FindOrgsByKindExtlID (o : Oracle) (extlID : string)
  : M (list orgstore.CreateOrgParams) :=
  _ <- ask o (Query "FindOrgsByKindExtlID" extlID) ;;
  d <- get_db ;;
  ret (filter (org_of_kind d extlID) (org d)).

(** Modelled from the spec: [a.AddNewKey(generator, encryptionKey,
    deactivation)] (section 3; package app is not among the sources):
    one more key on the app, its ciphertext from the key generator, or
    the generator's or the cipher's error. *)
Definition AddNewKey (o : Oracle) (a : app.App) (deactivation : Time)
  : M app.App :=
  n <- tick ;;
  _ <- emit (EvKeyGen (new_key o n)) ;;
  match new_key o n with
  | inl msg => fail (Errs.New msg)
  | inr c => ret (app.with_key a (app.mkAPIKey c deactivation))
  end.

End run.

(* ================================================================== *)
(** * The genesis service (package service) *)
(* ================================================================== *)

Module service.
Import store run.
Local Open Scope go_scope.

Definition genesisOrgTypeString : string := "genesis".

Record seedSet := mkSeedSet {
  org : org.Org;
  app : app.App;
  user : user.User;
  audit : audit.SimpleAudit
}.

Record orgAudit := mkOrgAudit {
  oa_Org : org.Org;
  oa_SimpleAudit : audit.SimpleAudit
}.

Record appAudit := mkAppAudit {
  aa_App : app.App;
  aa_SimpleAudit : audit.SimpleAudit
}.

(** Modelled from the spec: the response views of section 6 (their
    constructors are not among the sources): external id, name and
    description, and who created and last updated the entity and when. *)
Record AuditResponse := mkAuditResponse {
  CreatedBy : string;
  CreatedAt : Time;
  LastUpdatedBy : string;
  LastUpdatedAt : Time
}.

Record OrgResponse := mkOrgResponse {
  or_ExternalID : string;
  or_Name : string;
  or_Description : string;
  or_Audit : AuditResponse
}.

Record AppResponse := mkAppResponse {
  ar_ExternalID : string;
  ar_Name : string;
  ar_Description : string;
  ar_Audit : AuditResponse
}.

Definition newAuditResponse (sa : audit.SimpleAudit) : AuditResponse :=
  mkAuditResponse (user.Username (audit.User (audit.First sa)))
                  (audit.Moment (audit.First sa))
                  (user.Username (audit.User (audit.Last sa)))
                  (audit.Moment (audit.Last sa)).

Definition newOrgResponse (oa : orgAudit) : OrgResponse :=
  mkOrgResponse (org.ExternalID (oa_Org oa)) (org.Name (oa_Org oa))
                (org.Description (oa_Org oa))
                (newAuditResponse (oa_SimpleAudit oa)).

Definition newAppResponse (aa : appAudit) : AppResponse :=
  mkAppResponse (app.ExternalID (aa_App aa)) (app.Name (aa_App aa))
                (app.Description (aa_App aa))
                (newAuditResponse (aa_SimpleAudit aa)).

Record GenesisResponse := mkGenesisResponse {
  g_OrgResponse : OrgResponse;
  g_AppResponse : AppResponse
}.

Record TestResponse := mkTestResponse {
  t_OrgResponse : OrgResponse;
  t_AppResponse : AppResponse
}.

Record FullGenesisResponse := mkFullGenesisResponse {
  GenesisResponse_ : GenesisResponse;
  TestResponse_ : TestResponse
}.

(** The message of the row-count assertion. *)
Definition rows_msg (n : Z) : string :=
  "rows affected should be 1, actual: " ++ sprint_d n.

(** Modelled from the spec: the three org-kind helpers (section 4.1,
    step 2, and the row-count policy; they are not among the sources).
    One org-kind row with a fresh id, attributed to the audit; the error
    of a failed or miscounted insert is returned to [seedGenesis], which
    rolls back. *)
Definition createOrgKind (o : Oracle) (extlID desc : string)
           (adt : audit.Audit) : M orgstore.CreateOrgKindParams :=
  id <- uuid_New o ;;
  let params :=
    orgstore.mkCreateOrgKindParams id extlID desc (datastore.stamp_of adt) in
  rowsAffected <- tx_exec o (CreateOrgKind params) ;;
  if negb (Z.eqb rowsAffected 1)
  then fail (Errs.E_str Errs.Database (rows_msg rowsAffected))
  else ret params.

Definition createGenesisOrgKind (o : Oracle) (adt : audit.Audit)
  : M orgstore.CreateOrgKindParams :=
  createOrgKind o genesisOrgTypeString
    "The Genesis org represents the first organization created in the database and exists purely for the administrative purpose of creating other organizations, apps and users."
    adt.

Definition createTestOrgKind (o : Oracle) (adt : audit.Audit)
  : M orgstore.CreateOrgKindParams :=
  createOrgKind o "test"
    "The test org is used strictly for testing" adt.

Definition createStandardOrgKind (o : Oracle) (adt : audit.Audit) : M unit :=
  _ <- createOrgKind o "standard"
         "The standard org is used for myriad business purposes" adt ;;
  ret tt.

(** Modelled from the spec: an insert under the row-count policy that
    rolls the transaction back itself, as [createOrgDB] and
    [createUserDB] must, since [seedGenesis] and [seedTest] return their
    errors as they are. *)
Definition insert_one (o : Oracle) (s : Stmt) : M unit :=
  rowsAffected <- tx_exec o s
                    onerr (fun err => RollbackTx (Errs.E Errs.Database err)) ;;
  if negb (Z.eqb rowsAffected 1)
  then RollbackTx (Errs.E_str Errs.Database (rows_msg rowsAffected))
  else ret tt.

(** Modelled from the spec: [createOrgDB] (not among the sources): the
    org row, created by the audit's [First] and updated by its [Last]. *)
Definition createOrgDB (o : Oracle) (oa : orgAudit) : M unit :=
  insert_one o
    (CreateOrg
       (orgstore.mkCreateOrgParams
          (org.ID (oa_Org oa)) (org.ExternalID (oa_Org oa))
          (org.Name (oa_Org oa)) (org.Description (oa_Org oa))
          (org.Kind_ID (org.Kind_ (oa_Org oa)))
          (datastore.stamp_of_simple (oa_SimpleAudit oa)))).

(** Modelled from the spec: [createUserDB] (not among the sources): the
    Person, Profile and User rows of a user, in that order, each
    attributed to the audit it is given. *)
Definition createUserDB (o : Oracle) (u : user.User) (adt : audit.Audit)
  : M unit :=
  let pfl := user.Profile u in
  let prsn := person.Person_ pfl in
  _ <- insert_one o
         (CreatePerson
            (personstore.mkCreatePersonParams
               (person.ID prsn) (org.ID (person.Org prsn))
               (datastore.stamp_of adt))) ;;
  _ <- insert_one o
         (CreatePersonProfile
            (personstore.mkCreatePersonProfileParams
               (person.Profile_ID pfl) (person.ID prsn)
               (person.FirstName pfl) (person.LastName pfl)
               (datastore.stamp_of adt))) ;;
  insert_one o
    (CreateUser
       (userstore.mkCreateUserParams
          (user.ID u) (user.Username u) (org.ID (user.Org u))
          (person.Profile_ID pfl) (datastore.stamp_of adt))).

(** [createPeterGabriel]. *)
Definition createPeterGabriel (o : Oracle) (o_ : org.Org) (a : app.App)
  : M (user.User * audit.Audit) :=
  prsnID <- uuid_New o ;;
  let pgPrsn := person.mkPerson prsnID o_ in
  pflID <- uuid_New o ;;
  let pgPfl := person.mkProfile pflID pgPrsn "Peter" "Gabriel" in
  uID <- uuid_New o ;;
  let pgUser := user.mkUser uID (TrimSpace "pgabriel") o_ pgPfl in
  moment <- time_Now o ;;
  let pgAudit := audit.mkAudit a pgUser moment in
  ret (pgUser, pgAudit).

(** [createPhilCollins]. *)
Definition createPhilCollins (o : Oracle) (o_ : org.Org) (a : app.App)
  : M (user.User * audit.Audit) :=
  prsnID <- uuid_New o ;;
  let pcPrsn := person.mkPerson prsnID o_ in
  pflID <- uuid_New o ;;
  let pgPfl := person.mkProfile pflID pcPrsn "Phil" "Collins" in
  uID <- uuid_New o ;;
  let pcUser := user.mkUser uID (TrimSpace "pcollins") o_ pgPfl in
  moment <- time_Now o ;;
  let pcAudit := audit.mkAudit a pcUser moment in
  ret (pcUser, pcAudit).

(** The loop [for _, key := range a.APIKeys] of [seedGenesis] and of
    [seedTest]: one api-key row per key, attributed to the audit; a
    failed or miscounted insert rolls back and returns. *)
Fixpoint insertAPIKeys (o : Oracle) (a : app.App) (adt : audit.Audit)
         (keys : list app.APIKey) : M unit :=
  match keys with
  | [] => ret tt
  | key :: rest =>
      let createAppAPIKeyParams :=
        appstore.mkCreateAppAPIKeyParams
          (app.Ciphertext key)
          (app.ID a)
          (app.DeactivationDate key)
          (app.ID (audit.App adt))
          (datastore.NewNullUUID (user.ID (audit.User adt)))
          (audit.Moment adt)
          (app.ID (audit.App adt))
          (datastore.NewNullUUID (user.ID (audit.User adt)))
          (audit.Moment adt) in
      apiKeyRowsAffected <-
        tx_exec o (CreateAppAPIKey createAppAPIKeyParams)
          onerr (fun err => RollbackTx (Errs.E Errs.Database err)) ;;
      if negb (Z.eqb apiKeyRowsAffected 1)
      then RollbackTx
             (Errs.E_str Errs.Database (rows_msg apiKeyRowsAffected))
      else insertAPIKeys o a adt rest
  end.

(** [appstore.CreateAppParams] as both functions fill it. *)
Definition newCreateAppParams (a : app.App) (adt : audit.Audit)
  : appstore.CreateAppParams :=
  appstore.mkCreateAppParams
    (app.ID a)
    (org.ID (app.Org a))
    (app.ExternalID a)
    (app.Name a)
    (app.Description a)
    (app.ID (audit.App adt))
    (datastore.NewNullUUID (user.ID (audit.User adt)))
    (audit.Moment adt)
    (app.ID (audit.App adt))
    (datastore.NewNullUUID (user.ID (audit.User adt)))
    (audit.Moment adt).

(** [func (s GenesisService) seedGenesis(ctx, tx) (seedSet, org.Kind, error)]. *)
Definition seedGenesis (o : Oracle) : M (seedSet * org.Kind) :=
  (* create Org *)
  oID <- uuid_New o ;;
  oExtl <- secure_NewID o ;;
  let o_ :=
    org.mkOrg oID oExtl "genesis"
      "The genesis org represents the first organization created in the database and exists purely for the administrative purpose of creating other organizations, apps and users."
      org.Kind_zero in
  (* initialize App and inject dependent fields *)
  aID <- uuid_New o ;;
  aExtl <- secure_NewID o ;;
  let a :=
    app.mkApp aID aExtl o_ "WOPR"
      "App created as part of Genesis event. To be used solely for creating other apps, orgs and users."
      [] in
  let keyDeactivation := Date_2099_12_31 in
  a <- AddNewKey o a keyDeactivation
         onerr (fun err => RollbackTx (Errs.E Errs.Internal err)) ;;
  ' (pgUser, pgAudit) <- createPeterGabriel o o_ a ;;
  ' (pcUser, pcAudit) <- createPhilCollins o o_ a ;;
  (* create Genesis org kind *)
  genesisKindParams <-
    createGenesisOrgKind o pgAudit
      onerr (fun err => RollbackTx (Errs.E Errs.Database err)) ;;
  let o_ :=
    org.with_Kind o_
      (org.mkKind (orgstore.OrgKindID genesisKindParams)
                  (orgstore.OrgKindExtlID genesisKindParams)
                  (orgstore.OrgKindDesc genesisKindParams)) in
  (* create other org kinds (test, standard) *)
  testKindParams <-
    createTestOrgKind o pgAudit
      onerr (fun err => RollbackTx (Errs.E Errs.Database err)) ;;
  let tk :=
    org.mkKind (orgstore.OrgKindID testKindParams)
               (orgstore.OrgKindExtlID testKindParams)
               (orgstore.OrgKindDesc testKindParams) in
  _ <- createStandardOrgKind o pgAudit
         onerr (fun err => RollbackTx (Errs.E Errs.Database err)) ;;
  let sa := audit.mkSimpleAudit pgAudit pgAudit in
  (* write the Org to the database *)
  _ <- createOrgDB o (mkOrgAudit o_ sa) ;;
  let createAppParams := newCreateAppParams a pgAudit in
  (* create app database record using appstore *)
  rowsAffected <-
    tx_exec o (CreateApp createAppParams)
      onerr (fun err => RollbackTx (Errs.E Errs.Database err)) ;;
  if negb (Z.eqb rowsAffected 1)
  then RollbackTx (Errs.E_str Errs.Database (rows_msg rowsAffected))
  else
    _ <- insertAPIKeys o a pgAudit (app.APIKeys a) ;;
    (* write Peter Gabriel to the database *)
    _ <- createUserDB o pgUser pgAudit ;;
    (* write Phil Collins to the database *)
    _ <- createUserDB o pcUser pcAudit ;;
    ret (mkSeedSet o_ a pgUser sa, tk).

(** [func (s GenesisService) seedTest(ctx, tx, k) (seedSet, error)]. *)
Definition seedTest (o : Oracle) (k : org.Kind) : M seedSet :=
  (* create Org *)
  oID <- uuid_New o ;;
  oExtl <- secure_NewID o ;;
  let o_ := org.mkOrg oID oExtl "test" "The test org is self explanatory" k in
  (* initialize App and inject dependent fields *)
  aID <- uuid_New o ;;
  aExtl <- secure_NewID o ;;
  let a :=
    app.mkApp aID aExtl o_ "test" "The test app is self explanatory" [] in
  let keyDeactivation := Date_2099_12_31 in
  a <- AddNewKey o a keyDeactivation
         onerr (fun err => RollbackTx (Errs.E Errs.Internal err)) ;;
  (* create Person *)
  prsnID <- uuid_New o ;;
  let prsn := person.mkPerson prsnID o_ in
  (* create Person Profile *)
  pflID <- uuid_New o ;;
  let pfl := person.mkProfile pflID prsn "Steve" "Hackett" in
  (* create User *)
  uID <- uuid_New o ;;
  let u := user.mkUser uID (TrimSpace "shackett") o_ pfl in
  (* create Audit *)
  moment <- time_Now o ;;
  let adt := audit.mkAudit a u moment in
  let sa := audit.mkSimpleAudit adt adt in
  (* write the Org to the database *)
  _ <- createOrgDB o (mkOrgAudit o_ sa) ;;
  let createAppParams := newCreateAppParams a adt in
  (* create app database record using appstore *)
  rowsAffected <-
    tx_exec o (CreateApp createAppParams)
      onerr (fun err => RollbackTx (Errs.E Errs.Database err)) ;;
  if negb (Z.eqb rowsAffected 1)
  then RollbackTx (Errs.E_str Errs.Database (rows_msg rowsAffected))
  else
    _ <- insertAPIKeys o a adt (app.APIKeys a) ;;
    (* write the User to the database *)
    _ <- createUserDB o u adt ;;
    ret (mkSeedSet o_ a u sa).

(** [func genesisHasOccurred(ctx, dbtx) (err error)]. *)
Definition genesisHasOccurred (o : Oracle) : M unit :=
  (* first: check org_type *)
  hasGenesisOrgTypeRow <-
    catch (_ <- FindOrgKindByExtlID o genesisOrgTypeString ;; ret true)
          (fun err =>
             match err with
             | Errs.ErrNoRows => ret false
             | _ => fail (Errs.E Errs.Database err)
             end) ;;
  (* last: check org *)
  existingOrgs <-
    FindOrgsByKindExtlID o genesisOrgTypeString
      onerr (fun err => fail (Errs.E Errs.Database err)) ;;
  let hasGenesisOrgRow := negb (Nat.eqb (List.length existingOrgs) 0) in
  if hasGenesisOrgTypeRow || hasGenesisOrgRow
  then fail (Errs.E_str Errs.Validation
               "No prior data should exist when executing Genesis Service")
  else ret tt.

(** [func (s GenesisService) Seed(ctx) (FullGenesisResponse, error)]. *)
Definition Seed (o : Oracle) : M FullGenesisResponse :=
  (* ensure the Genesis seed event has not already taken place *)
  _ <- genesisHasOccurred o ;;
  (* start db txn *)
  _ <- BeginTx o ;;
  (* seed Genesis data *)
  ' (genesisSet, testKind) <- seedGenesis o ;;
  (* seed Test data *)
  testSet <- seedTest o testKind ;;
  (* commit db txn *)
  _ <- CommitTx o ;;
  let genesisResponse :=
    mkGenesisResponse
      (newOrgResponse (mkOrgAudit (org genesisSet) (audit genesisSet)))
      (newAppResponse (mkAppAudit (app genesisSet) (audit genesisSet))) in
  let testResponse :=
    mkTestResponse
      (newOrgResponse (mkOrgAudit (org testSet) (audit testSet)))
      (newAppResponse (mkAppAudit (app testSet) (audit testSet))) in
  ret (mkFullGenesisResponse genesisResponse testResponse).

End service.

(* ================================================================== *)
(** * Reading a run: its events, their causes, and the run without failures *)
(* ================================================================== *)

Module trace.
Import store run.
Local Open Scope list_scope.

(** The error [Seed] returns for an event that makes it fail, if the event
    is one: a failed call of the driver, a failed key generation, or an
    insert that reports another count of rows than one. *)
Definition blame (ev : Event) : option Errs.error :=
  match ev with
  | EvKeyGen (inl msg) => Some (Errs.E Errs.Internal (Errs.New msg))
  | EvKeyGen (inr _) => None
  | EvCall _ (Fails msg) => Some (Errs.E Errs.Database (Errs.DriverErr msg))
  | EvCall (Exec s) (Affects n) =>
      if Z.eqb n 1 then None
      else
        let e := Errs.E_str Errs.Database (service.rows_msg n) in
        match s with
        | CreateOrgKind _ => Some (Errs.E Errs.Database e)
        | _ => Some e
        end
  | EvCall _ (Affects _) => None
  | EvRollback => None
  end.

(** An event after which the run goes on. *)
Definition good (ev : Event) : bool :=
  match ev with
  | EvRollback => false
  | _ => match blame ev with None => true | Some _ => false end
  end.

(** An event of the transaction: an insert or a key generation. *)
Definition in_tx (ev : Event) : bool :=
  match ev with
  | EvCall (Exec _) _ => true
  | EvKeyGen _ => true
  | _ => false
  end.

(** The event records an answer the oracle gives. *)
Definition answered (o : Oracle) (ev : Event) : Prop :=
  match ev with
  | EvCall c out => exists n, driver o n c = out
  | EvKeyGen r => exists n, new_key o n = r
  | EvRollback => False
  end.

(** A successful step inside the transaction: the committed tables are
    untouched, the transaction stays open, and only good events were
    logged. *)
Definition Keeps (w w' : World) : Prop :=
  db w' = db w /\ (exists q, txn w' = Open q) /\
  exists evs, log w' = log w ++ evs /\ Forall (fun ev => good ev = true) evs.

(** A failed step inside the transaction that has rolled it back: after
    good events, the event blamed for the error, then the rollback. *)
Definition Aborts (o : Oracle) (w : World) (e : Errs.error) (w' : World)
  : Prop :=
  db w' = db w /\ txn w' = RolledBack /\
  exists evs ev,
    log w' = log w ++ evs ++ [ev; EvRollback] /\
    Forall (fun ev => good ev = true) evs /\
    blame ev = Some e /\ answered o ev /\ in_tx ev = true.

(** A statement other than the org-kind insert. *)
Definition plain (s : Stmt) : Prop :=
  match s with CreateOrgKind _ => False | _ => True end.

(** The oracle of a run in which no insert and no key generation fails:
    every insert reports one row, and the key generator gives the text it
    gives in [o], or the empty text where it fails in [o]. *)
Definition cure (o : Oracle) : Oracle :=
  mkOracle
    (fun n c => match c with Exec _ => Affects 1 | _ => driver o n c end)
    (new_uuid o) (new_id o) (now o)
    (fun n => inr (match new_key o n with inr c => c | inl _ => "" end)).

(** [c'] does what [c] does wherever [c] succeeds, and where [c] fails it
    has rolled the transaction back for the event it blames. *)
Definition Sim {A} (o : Oracle) (c c' : M A) (w : World) : Prop :=
  match c w with
  | (inr a, w') => c' w = (inr a, w') /\ Keeps w w'
  | (inl e, w') => Aborts o w e w'
  end.

(** The same run seen from a larger one: tables [d] committed, rows [p]
    pending and events [l] logged before it started. *)
Definition reframe (d p : DB) (l : list Event) (w : World) : World :=
  mkWorld d
          (match txn w with Open q => Open (db_app p q) | t => t end)
          (ticks w) (l ++ log w).

(** A computation that neither reads nor writes the committed tables and
    only adds to the transaction and to the log does the same in every
    frame. *)
Definition Framed {A} (c : M A) : Prop :=
  forall d p l w,
    c (reframe d p l w) = (fst (c w), reframe d p l (snd (c w))).

(** The two seeding steps, one after the other. *)
Definition seeding (o : Oracle)
  : M (service.seedSet * org.Kind * service.seedSet) :=
  (gs <- service.seedGenesis o ;;
   ts <- service.seedTest o (snd gs) ;;
   ret (gs, ts))%go.

(** The world in which the seeding steps start: the two reads and the
    begin answered, the transaction open on the committed tables. *)
Definition begun (d : DB) (l : list Event) : World := mkWorld d (Open d) 3 l.

(** The rows of an open transaction. *)
Definition pending (w : World) : DB :=
  match txn w with Open q => q | _ => empty end.

(** What a run without failures adds and returns, read off the run on the
    empty tables. *)
Definition seeded (o : Oracle)
  : (Errs.error + service.seedSet * org.Kind * service.seedSet) * World :=
  seeding (cure o) (begun empty []).

Definition seeded_rows (o : Oracle) : DB := pending (snd (seeded o)).

(* These are runs of the whole program: they are unfolded on request
   only. *)
Arguments seeded : simpl never.
Arguments seeded_rows : simpl never.
Arguments seeding : simpl never.
Arguments service.Seed : simpl never.
Arguments service.seedGenesis : simpl never.
Arguments service.seedTest : simpl never.

(** The response [Seed] assembles from the two seed sets. *)
Definition response (r : service.seedSet * org.Kind * service.seedSet)
  : service.FullGenesisResponse :=
  let genesisSet := fst (fst r) in
  let testSet := snd r in
  service.mkFullGenesisResponse
    (service.mkGenesisResponse
       (service.newOrgResponse
          (service.mkOrgAudit (service.org genesisSet)
                              (service.audit genesisSet)))
       (service.newAppResponse
          (service.mkAppAudit (service.app genesisSet)
                              (service.audit genesisSet))))
    (service.mkTestResponse
       (service.newOrgResponse
          (service.mkOrgAudit (service.org testSet) (service.audit testSet)))
       (service.newAppResponse
          (service.mkAppAudit (service.app testSet) (service.audit testSet)))).

(** An org row of the genesis kind, as the second precondition read sees
    it. *)
Definition genesis_orgs (d : DB) : list orgstore.CreateOrgParams :=
  filter (org_of_kind d service.genesisOrgTypeString) (org d).

(** An org-kind row with the genesis external id, as the first
    precondition read sees it. *)
Definition genesis_kind (d : DB) : option orgstore.CreateOrgKindParams :=
  find (fun k => String.eqb (orgstore.OrgKindExtlID k)
                            service.genesisOrgTypeString)
       (org_kind d).

(** The two precondition reads, and what they find. *)
Definition read_kind : Call :=
  Query "FindOrgKindByExtlID" service.genesisOrgTypeString.

Definition read_orgs : Call :=
  Query "FindOrgsByKindExtlID" service.genesisOrgTypeString.

Definition has_genesis (d : DB) : bool :=
  match genesis_kind d with Some _ => true | None => false end
  || negb (Nat.eqb (List.length (genesis_orgs d)) 0).

(** The error of the precondition. *)
Definition prior_data : Errs.error :=
  Errs.E_str Errs.Validation
    "No prior data should exist when executing Genesis Service".

(** The events of a run up to its open transaction. *)
Definition prelude (k1 k2 kb : Z) : list Event :=
  [EvCall read_kind (Affects k1); EvCall read_orgs (Affects k2);
   EvCall Begin (Affects kb)].

(** The ways a call of [Seed] on tables [d] fails, with the world it
    leaves: a read fails, prior data is found, the begin fails, a step of
    the transaction fails and rolls it back, or the commit fails. *)
Inductive Failed (o : Oracle) (d : DB) (e : Errs.error) (w' : World) : Prop :=
| Failed_read_kind msg :
    driver o 0 read_kind = Fails msg ->
    e = Errs.E Errs.Database (Errs.DriverErr msg) ->
    w' = mkWorld d NoTx 1 [EvCall read_kind (Fails msg)] ->
    Failed o d e w'
| Failed_read_orgs k1 msg :
    driver o 1 read_orgs = Fails msg ->
    e = Errs.E Errs.Database (Errs.DriverErr msg) ->
    w' = mkWorld d NoTx 2
           [EvCall read_kind (Affects k1); EvCall read_orgs (Fails msg)] ->
    Failed o d e w'
| Failed_prior k1 k2 :
    has_genesis d = true ->
    e = prior_data ->
    w' = mkWorld d NoTx 2
           [EvCall read_kind (Affects k1); EvCall read_orgs (Affects k2)] ->
    Failed o d e w'
| Failed_begin k1 k2 msg :
    has_genesis d = false ->
    driver o 2 Begin = Fails msg ->
    e = Errs.E Errs.Database (Errs.DriverErr msg) ->
    w' = mkWorld d NoTx 3
           [EvCall read_kind (Affects k1); EvCall read_orgs (Affects k2);
            EvCall Begin (Fails msg)] ->
    Failed o d e w'
| Failed_inside k1 k2 kb evs ev :
    has_genesis d = false ->
    db w' = d -> txn w' = RolledBack ->
    log w' = prelude k1 k2 kb ++ evs ++ [ev; EvRollback] ->
    Forall (fun ev => good ev = true) evs ->
    in_tx ev = true -> blame ev = Some e -> answered o ev ->
    Failed o d e w'
| Failed_commit k1 k2 kb evs msg :
    has_genesis d = false ->
    db w' = d -> txn w' = RolledBack ->
    log w' = prelude k1 k2 kb ++ evs ++ [EvCall Commit (Fails msg)] ->
    Forall (fun ev => good ev = true) evs ->
    answered o (EvCall Commit (Fails msg)) ->
    e = Errs.E Errs.Database (Errs.DriverErr msg) ->
    Failed o d e w'.

(** The world a call of [Seed] that succeeds leaves, and its response. *)
Definition Seeded (o : Oracle) (d : DB) (resp : service.FullGenesisResponse)
           (w' : World) : Prop :=
  has_genesis d = false /\
  exists k1 k2 kb kc r evs,
    fst (seeded o) = inr r /\ resp = response r /\
    db w' = db_app d (seeded_rows o) /\ txn w' = Committed /\
    log w' = prelude k1 k2 kb ++ evs ++ [EvCall Commit (Affects kc)] /\
    Forall (fun ev => good ev = true) evs.


(** The world of an open transaction in which nothing is committed,
    pending or logged, [n] questions into the run. *)
Definition canon (n : nat) : World := mkWorld empty (Open empty) n [].

(** The genesis step without failures, read off the run from [canon n]. *)
Definition genesis_from (o : Oracle) (n : nat)
  : (Errs.error + service.seedSet * org.Kind) * World :=
  service.seedGenesis (cure o) (canon n).

Arguments genesis_from : simpl never.

(** The test step without failures, read off the run from [canon n]. *)
Definition test_from (o : Oracle) (k : org.Kind) (n : nat)
  : (Errs.error + service.seedSet) * World :=
  service.seedTest (cure o) k (canon n).

Arguments test_from : simpl never.

(** The api-key row the loop of [seedGenesis] and [seedTest] writes for a
    key of the app. *)
Definition api_key_row (a : app.App) (adt : audit.Audit) (key : app.APIKey)
  : appstore.CreateAppAPIKeyParams :=
  appstore.mkCreateAppAPIKeyParams
    (app.Ciphertext key) (app.ID a) (app.DeactivationDate key)
    (app.ID (audit.App adt))
    (datastore.NewNullUUID (user.ID (audit.User adt))) (audit.Moment adt)
    (app.ID (audit.App adt))
    (datastore.NewNullUUID (user.ID (audit.User adt))) (audit.Moment adt).

(** [uuid.New] of this oracle gives no id twice, and none that an org row
    of [d] already names as its kind. *)
Definition fresh (o : Oracle) (d : DB) : Prop :=
  (forall i j, new_uuid o i = new_uuid o j -> i = j) /\
  (forall i r, In r (org d) -> orgstore.OrgKindID_ r <> new_uuid o i).

(** [Seed], called once for each oracle of the list, each call on the
    tables the one before left. *)
Fixpoint Seeds (os : list Oracle) (d : DB) : DB :=
  match os with
  | [] => d
  | o :: rest => Seeds rest (db (snd (service.Seed o (start d))))
  end.

End trace.

(* ================================================================== *)
(** * Scenarios *)
(* ================================================================== *)

Module scenario.
Import store.

(** A store and a key generator that never fail: ids count up from 100,
    the clock from 1000. *)
Definition steady : Oracle :=
  mkOracle (fun _ _ => Affects 1)
           (fun n => (N.of_nat n + 100)%N)
           (fun _ => "id")
           (fun n => (Z.of_nat n + 1000)%Z)
           (fun _ => inr "sealed").

(** The same with another driver, or another key generator. *)
Definition with_driver (drv : nat -> Call -> Outcome) : Oracle :=
  mkOracle drv (new_uuid steady) (new_id steady) (now steady)
           (new_key steady).

(** The store fails the insert of an api key. *)
Definition key_insert_fails : Oracle :=
  with_driver (fun _ c =>
                 match c with
                 | Exec (CreateAppAPIKey _) => Fails "connection reset"
                 | _ => Affects 1
                 end).

(** The store reports no row for the insert of an app. *)
Definition app_insert_miscounts : Oracle :=
  with_driver (fun _ c =>
                 match c with
                 | Exec (CreateApp _) => Affects 0
                 | _ => Affects 1
                 end).

(** The key generator fails. *)
Definition keygen_fails : Oracle :=
  mkOracle (driver steady) (new_uuid steady) (new_id steady) (now steady)
           (fun _ => inl "no entropy").

(** The store cannot be reached for reading: it fails every query. *)
Definition reads_fail : Oracle :=
  with_driver (fun _ c =>
                 match c with
                 | Query _ _ => Fails "connection refused"
                 | _ => Affects 1
                 end).

(** Eleven names for the variables of the environment, an operating
    system that has no files and refuses no assignment, and one that
    refuses to assign the server port. *)
Definition env_names : Command.EnvNames :=
  Command.mkEnvNames "LOG_LEVEL_MIN" "LOG_LEVEL" "LOG_ERROR_STACK" "PORT"
                     "DB_HOST" "DB_PORT" "DB_NAME" "DB_USER" "DB_PASSWORD"
                     "DB_SEARCH_PATH" "ENCRYPT_KEY".

Definition willing_os : Command.OS :=
  Command.mkOS (fun _ => inl (Errs.New "no such file"))
               (fun _ => inr Command.ConfigFile_zero)
               (fun _ _ => None).

Definition port_refusing_os : Command.OS :=
  Command.mkOS (fun _ => inl (Errs.New "no such file"))
               (fun _ => inr Command.ConfigFile_zero)
               (fun k _ => if String.eqb k "PORT"
                           then Some (Errs.New "invalid argument")
                           else None).

(** An app, an audit and two keys. *)
Definition some_org : org.Org :=
  org.mkOrg 2%N "o" "acme" "An organization" org.Kind_zero.

Definition some_app : app.App :=
  app.mkApp 1%N "a" some_org "console" "An app" [].

Definition some_audit : audit.Audit :=
  audit.mkAudit some_app
    (user.mkUser 3%N "ann" some_org
       (person.mkProfile 4%N (person.mkPerson 5%N some_org) "Ann" "Lee"))
    0%Z.

Definition two_keys : list app.APIKey :=
  [app.mkAPIKey "k1" 0%Z; app.mkAPIKey "k2" 0%Z].

Definition no_stamp : datastore.Stamp :=
  datastore.mkStamp 2%N (datastore.mkNullUUID 0%N false) 0%Z
                    2%N (datastore.mkNullUUID 0%N false) 0%Z.


(** Tables that hold the genesis org kind. *)
Definition genesis_tables : DB :=
  mkDB [orgstore.mkCreateOrgKindParams 1%N "genesis" "The Genesis org"
          no_stamp]
       [] [] [] [] [] [].

End scenario.

(* ================================================================== *)
(** * Theorems *)
(* ================================================================== *)

Local Open Scope list_scope.
Module CommandFacts.
Import Command.

(** C9. [ParseEnv] undoes [String] on [Existing], [Local] and [Staging]
    only: [Production] is written "production", which [ParseEnv], knowing
    it as "prod" alone, reads as [Invalid], as it reads every string it
    does not know. *)
Theorem ParseEnv_String_partial_inverse :
  (forall e, In e [Existing; Local; Staging] -> ParseEnv (String e) = e) /\
  String Production = "production" /\
  ParseEnv (String Production) = Invalid /\
  (forall s, ParseEnv s = Production <-> s = "prod") /\
  (forall s, s <> "existing" -> s <> "local" -> s <> "staging" ->
             s <> "prod" -> ParseEnv s = Invalid).
Proof.
  split; [|split; [|split; [|split]]].
  - intros e He. simpl in He.
    destruct He as [<- | [<- | [<- | []]]]; reflexivity.
  - reflexivity.
  - reflexivity.
  - intro s. unfold ParseEnv. split.
    + destruct (String.eqb_spec s "existing"); [discriminate|].
      destruct (String.eqb_spec s "local"); [discriminate|].
      destruct (String.eqb_spec s "staging"); [discriminate|].
      destruct (String.eqb_spec s "prod"); [trivial | discriminate].
    + intros ->. reflexivity.
  - intros s H1 H2 H3 H4. unfold ParseEnv.
    destruct (String.eqb_spec s "existing"); [contradiction|].
    destruct (String.eqb_spec s "local"); [contradiction|].
    destruct (String.eqb_spec s "staging"); [contradiction|].
    destruct (String.eqb_spec s "prod"); [contradiction|].
    reflexivity.
Qed.

End CommandFacts.
Module MoviestoreFacts.
Import Moviestore.

(** The loop keeps what was scanned before it, in order. *)
Lemma scan_all_inr (l : list (Errs.error + Movie)) :
  forall s s', scan_all l s = inr s' ->
               exists t, l = map inr t /\ s' = s ++ t.
Proof.
  induction l as [|[e|m] l IH]; simpl; intros s s' H.
  - injection H as <-. exists []. now rewrite app_nil_r.
  - discriminate.
  - apply IH in H as (t & -> & ->). exists (m :: t).
    split; [reflexivity | now rewrite <- app_assoc].
Qed.

(** C10. [FindAll] never returns an empty list without an error: a
    result it returns holds at least one movie, and a cursor that yields
    no row and reports no error gives the [Validation] error
    "No rows returned". *)
Theorem FindAll_never_empty :
  (forall q s, FindAll q = inr s -> s <> []) /\
  (forall rows, scans rows = [] -> close_err rows = None ->
                rows_err rows = None ->
                FindAll (inr rows)
                = inl (Errs.Err op Errs.Validation
                         (Errs.New "No rows returned"))) /\
  FindAll (healthy [])
  = inl (Errs.Err op Errs.Validation (Errs.New "No rows returned")).
Proof.
  split; [|split].
  - intros [e|rows] s; simpl; [discriminate|].
    destruct (scan_all (scans rows) []) as [e|s0]; [discriminate|].
    destruct (close_err rows); [discriminate|].
    destruct (rows_err rows); [discriminate|].
    destruct s0 as [|m s0]; simpl; [discriminate|].
    intros H; injection H as <-. discriminate.
  - intros rows Hs Hc Hr. unfold FindAll. rewrite Hs, Hc, Hr. reflexivity.
  - reflexivity.
Qed.

End MoviestoreFacts.

Module AuthzFacts.
Import Authz.

Lemma matches_spec (res opn : string) (p : Permission) :
  matches res opn p = true <->
  Active p = true /\ Resource p = res /\ Operation p = opn.
Proof.
  unfold matches. rewrite !andb_true_iff, !String.eqb_eq. tauto.
Qed.

Lemma grants_spec (res opn : string) (r : Role) :
  grants res opn r = true <->
  RoleActive r = true /\
  exists p, In p (Permissions r) /\ Active p = true /\
            Resource p = res /\ Operation p = opn.
Proof.
  unfold grants. rewrite andb_true_iff, existsb_exists.
  split.
  - intros (Ha & p & Hin & Hm). apply matches_spec in Hm. eauto.
  - intros (Ha & p & Hin & Hm). split; [assumption|].
    exists p. split; [assumption | now apply matches_spec].
Qed.

(** C6. [Authorize] allows a request exactly when one of the principal's
    roles is active and holds an active permission whose resource and
    operation are the requested strings themselves; the principal holding
    [sysAdmin] of the example document may POST to /api/v1/orgs and may
    not PATCH it. *)
Theorem Authorize_exact_match :
  (forall p res opn,
      Authorize p res opn = true <->
      exists r q, In r (Roles p) /\ RoleActive r = true /\
                  In q (Permissions r) /\ Active q = true /\
                  Resource q = res /\ Operation q = opn) /\
  Authorize sysAdmin_principal "/api/v1/orgs" "POST" = true /\
  Authorize sysAdmin_principal "/api/v1/orgs" "PATCH" = false.
Proof.
  split; [|split; reflexivity].
  intros p res opn. unfold Authorize. rewrite existsb_exists. split.
  - intros (r & Hin & Hg). apply grants_spec in Hg as (Ha & q & Hq).
    exists r, q. tauto.
  - intros (r & q & Hin & Ha & Hq). exists r. split; [assumption|].
    apply grants_spec. split; [assumption|]. exists q. assumption.
Qed.

End AuthzFacts.

Module SchemaFacts.
Import Schema.

Lemma non_empty_spec (v : Value) : non_empty v = true <-> NonEmptyString v.
Proof.
  unfold NonEmptyString. destruct v; simpl; split;
    try discriminate; try (intros (s0 & H & _); discriminate).
  - intros H. exists s. split; [reflexivity|].
    intros ->. discriminate.
  - intros (s0 & [= <-] & Hne).
    destruct (String.eqb_spec s ""); [contradiction | reflexivity].
Qed.

Lemma is_bool_spec (v : Value) : is_bool v = true <-> Boolean v.
Proof.
  unfold Boolean. destruct v; simpl; split; try discriminate;
    try (intros (b0 & H); discriminate); eauto.
Qed.

Lemma User_ok_spec (u : User) :
  User_ok u = true <->
  NonEmptyString (email u) /\ NonEmptyString (first_name u) /\
  NonEmptyString (last_name u).
Proof.
  unfold User_ok. rewrite !andb_true_iff, !non_empty_spec. tauto.
Qed.

Lemma Permission_ok_spec (p : Permission) :
  Permission_ok p = true <->
  NonEmptyString (resource p) /\ NonEmptyString (operation p) /\
  NonEmptyString (description p) /\ Boolean (active p).
Proof.
  unfold Permission_ok.
  rewrite !andb_true_iff, !non_empty_spec, is_bool_spec. tauto.
Qed.

Lemma In_all_permissions (d : Request) (p : Permission) :
  In p (all_permissions d) <->
  In p (permissions d) \/ exists r, In r (roles d) /\ In p (role_permissions r).
Proof.
  unfold all_permissions. rewrite in_app_iff, in_flat_map. tauto.
Qed.

(** C8. The schema accepts a request document exactly when the three
    fields of its user are non-empty strings, every permission it
    mentions has a non-empty resource, operation and description and a
    boolean active flag, and every role has a non-empty code and
    description and a boolean active flag; a document the schema refuses
    is a [Validation] error and none of its roles is loaded. *)
Theorem accepts_iff_fields_valid :
  (forall d,
      accepts d = true <->
      (NonEmptyString (email (user d)) /\
       NonEmptyString (first_name (user d)) /\
       NonEmptyString (last_name (user d))) /\
      (forall p, In p (all_permissions d) ->
                 NonEmptyString (resource p) /\ NonEmptyString (operation p) /\
                 NonEmptyString (description p) /\ Boolean (active p)) /\
      (forall r, In r (roles d) ->
                 NonEmptyString (role_cd r) /\
                 NonEmptyString (role_description r) /\
                 Boolean (role_active r))) /\
  (forall d, accepts d = false ->
             exists e, Authz.load d = inl e /\
                       Errs.KindOf e = Errs.Validation) /\
  (forall d rs, Authz.load d = inr rs -> accepts d = true).
Proof.
  split; [|split].
  - intro d. unfold accepts, Auth_ok.
    rewrite !andb_true_iff, User_ok_spec, !forallb_forall. split.
    + intros (Hu & Hp & Hr). split; [assumption|]. split.
      * intros p Hin. apply Permission_ok_spec.
        apply In_all_permissions in Hin as [Hin | (r & Hin & Hpr)].
        -- now apply Hp.
        -- specialize (Hr r Hin). unfold Role_ok in Hr.
           rewrite !andb_true_iff, forallb_forall in Hr. now apply Hr.
      * intros r Hin. specialize (Hr r Hin). unfold Role_ok in Hr.
        rewrite !andb_true_iff, !non_empty_spec, is_bool_spec in Hr. tauto.
    + intros (Hu & Hp & Hr). split; [assumption|]. split.
      * intros p Hin. apply Permission_ok_spec, Hp, In_all_permissions.
        now left.
      * intros r Hin. unfold Role_ok.
        rewrite !andb_true_iff, !non_empty_spec, is_bool_spec, forallb_forall.
        destruct (Hr r Hin) as (H1 & H2 & H3). repeat split; try assumption.
        intros p Hpr. apply Permission_ok_spec, Hp, In_all_permissions.
        right. eauto.
  - intros d H. unfold Authz.load. rewrite H. eexists. split; reflexivity.
  - intros d rs. unfold Authz.load.
    destruct (accepts d); [reflexivity | discriminate].
Qed.

End SchemaFacts.

(* ------------------------------------------------------------------ *)
(** ** Configuration files and the process environment *)
(* ------------------------------------------------------------------ *)

Module ConfigFacts.
Import Command.

(** Reading a name and printing the result gives the name back, except
    for "prod", which prints as "production"; no string is read as an
    environment that prints as unknown. *)
Theorem String_ParseEnv (s : string) :
  (ParseEnv s = Invalid \/ String (ParseEnv s) = s \/
   (s = "prod" /\ String (ParseEnv s) = "production")) /\
  String (ParseEnv s) <> "unknown_env_config".
Proof.
  unfold ParseEnv.
  destruct (String.eqb_spec s "existing") as [->|_];
    [split; [auto | discriminate]|].
  destruct (String.eqb_spec s "local") as [->|_];
    [split; [auto | discriminate]|].
  destruct (String.eqb_spec s "staging") as [->|_];
    [split; [auto | discriminate]|].
  destruct (String.eqb_spec s "prod") as [->|_];
    split; auto; discriminate.
Qed.

Lemma CUEPaths_inr env paths :
  CUEPaths env = inr paths ->
  (env = Local /\
   paths = mkConfigCueFilePaths
             ["./config/cue/schema.cue"; "./config/cue/local.cue"]
             localJSONConfigFile) \/
  (env = Staging /\
   paths = mkConfigCueFilePaths
             ["./config/cue/schema.cue"; "./config/cue/staging.cue"]
             stagingJSONConfigFile) \/
  (env = Production /\
   paths = mkConfigCueFilePaths
             ["./config/cue/schema.cue"; "./config/cue/production.cue"]
             productionJSONConfigFile).
Proof.
  unfold CUEPaths.
  destruct (N.eqb_spec env Local) as [->|_]; [intros [= <-]; auto|].
  destruct (N.eqb_spec env Staging) as [->|_]; [intros [= <-]; auto|].
  destruct (N.eqb_spec env Production) as [->|_]; [intros [= <-]; auto|].
  discriminate.
Qed.

(** The file [CUEPaths] names as the output for an environment is the
    file [NewConfigFile] reads for it.  Its inputs are two: the schema,
    then the CUE file named after the environment as [String] prints it;
    the output is the JSON file of that same name. *)
Theorem CUEPaths_output_is_read (os : OS) (env : Env)
        (paths : ConfigCueFilePaths) :
  CUEPaths env = inr paths ->
  NewConfigFile os env
  = match ReadFile os (Output paths) with
    | inl err => inl err
    | inr b => Unmarshal os b
    end /\
  Input paths
  = ["./config/cue/schema.cue";
     ("./config/cue/" ++ String env ++ ".cue")%string] /\
  Output paths = ("./config/" ++ String env ++ ".json")%string.
Proof.
  intro H.
  destruct (CUEPaths_inr env paths H) as [[-> ->] | [[-> ->] | [-> ->]]];
    repeat split; reflexivity.
Qed.

(** An operating system whose files are empty and whose decoder gives
    the zero configuration: for staging, the inputs are the schema and
    [staging.cue], and [staging.json] is written and read. *)
Lemma CUEPaths_output_is_read_witness :
  NewConfigFile (mkOS (fun _ => inr "") (fun _ => inr ConfigFile_zero)
                      (fun _ _ => None)) Staging
  = inr ConfigFile_zero /\
  ["./config/cue/schema.cue"; "./config/cue/staging.cue"]
  = ["./config/cue/schema.cue"; "./config/cue/staging.cue"] /\
  stagingJSONConfigFile = "./config/staging.json".
Proof.
  exact (CUEPaths_output_is_read
           (mkOS (fun _ => inr "") (fun _ => inr ConfigFile_zero)
                 (fun _ _ => None))
           Staging
           (mkConfigCueFilePaths
              ["./config/cue/schema.cue"; "./config/cue/staging.cue"]
              stagingJSONConfigFile)
           eq_refl).
Defined.

(** [CUEPaths] has paths for the local, staging and production
    environments and for no other: for every other environment it fails,
    and its error names the environment as [String] prints it, so
    "existing", "invalid", or "unknown_env_config" for a value that is no
    environment.  [NewConfigFile] reads no file for the existing
    environment, and fails for a value outside the four it knows. *)
Theorem CUEPaths_fails_outside (env : Env) :
  (forall e,
      CUEPaths env = inl e <->
      (env <> Local /\ env <> Staging /\ env <> Production) /\
      e = Errs.E_str Errs.Other
            ("There is no path configuration for the " ++ String env
             ++ " environment")%string) /\
  CUEPaths Existing
  = inl (Errs.E_str Errs.Other
           "There is no path configuration for the existing environment") /\
  CUEPaths Invalid
  = inl (Errs.E_str Errs.Other
           "There is no path configuration for the invalid environment") /\
  ((4 <= env)%N -> env <> Invalid ->
   CUEPaths env
   = inl (Errs.E_str Errs.Other
            "There is no path configuration for the unknown_env_config environment")) /\
  (forall os, NewConfigFile os Existing = inr ConfigFile_zero) /\
  (forall os, (4 <= env)%N ->
              NewConfigFile os env
              = inl (Errs.E_str Errs.Other "Invalid environment")).
Proof.
  split; [|split; [|split; [|split; [|split]]]].
  - intro e. unfold CUEPaths. split.
    + intro H.
      destruct (N.eqb_spec env Local); [discriminate|].
      destruct (N.eqb_spec env Staging); [discriminate|].
      destruct (N.eqb_spec env Production); [discriminate|].
      injection H as <-. auto.
    + intros [(H1 & H2 & H3) ->].
      destruct (N.eqb_spec env Local); [contradiction|].
      destruct (N.eqb_spec env Staging); [contradiction|].
      destruct (N.eqb_spec env Production); [contradiction|]. reflexivity.
  - reflexivity.
  - reflexivity.
  - intros H Hi. unfold CUEPaths, String.
    unfold Existing, Local, Staging, Production, Invalid in *.
    destruct (N.eqb_spec env 1); [lia|].
    destruct (N.eqb_spec env 2); [lia|].
    destruct (N.eqb_spec env 3); [lia|].
    destruct (N.eqb_spec env 0); [lia|].
    destruct (N.eqb_spec env 99); [contradiction|]. reflexivity.
  - reflexivity.
  - intros os H. unfold NewConfigFile, Existing, Local, Staging, Production.
    destruct (N.eqb_spec env 0); [lia|].
    destruct (N.eqb_spec env 1); [lia|].
    destruct (N.eqb_spec env 2); [lia|].
    destruct (N.eqb_spec env 3); [lia|]. reflexivity.
Qed.

Lemma Getenv_other k v env k' :
  k <> k' -> Getenv ((k, v) :: env) k' = Getenv env k'.
Proof.
  intro H. cbn. destruct (String.eqb_spec k k'); [contradiction|reflexivity].
Qed.

(** What a run of assignments that is not refused leaves. *)
Lemma setenv_all_ok os l :
  forall env env',
    setenv_all os l env = (None, env') ->
    NoDup (map fst l) ->
    env' = rev l ++ env /\
    (forall k v, In (k, v) l -> Getenv env' k = Some v) /\
    (forall k, ~ In k (map fst l) -> Getenv env' k = Getenv env k).
Proof.
  induction l as [|[k v] l IH]; intros env env' H Hnd.
  - injection H as <-. repeat split; auto. intros k v [].
  - cbn in H. destruct (Setenv_err os k v); [discriminate|].
    inversion Hnd as [|? ? Hnotin Hnd']; subst.
    destruct (IH _ _ H Hnd') as (-> & Hset & Hrest).
    split; [cbn; now rewrite <- app_assoc|]. split.
    + intros k' v' [[= <- <-] | Hin].
      * rewrite (Hrest k Hnotin). cbn. now rewrite String.eqb_refl.
      * now apply Hset.
    + intros k' Hk'. cbn in Hk'.
      rewrite Hrest by tauto. apply Getenv_other. tauto.
Qed.

(** When [overrideEnv] returns no error and the eleven names differ from
    one another, every variable holds the value of its field, printed,
    and every other variable holds what it held. *)
Theorem overrideEnv_sets_all os nm f env env' :
  NoDup (map fst (assignments nm f)) ->
  overrideEnv os nm f env = (None, env') ->
  (forall k v, In (k, v) (assignments nm f) -> Getenv env' k = Some v) /\
  (forall k, ~ In k (map fst (assignments nm f)) ->
             Getenv env' k = Getenv env k).
Proof.
  intros Hnd H. destruct (setenv_all_ok os _ _ _ H Hnd) as (_ & H1 & H2).
  now split.
Qed.

Lemma overrideEnv_sets_all_witness :
  (forall k v,
      In (k, v) (assignments scenario.env_names ConfigFile_zero) ->
      Getenv (rev (assignments scenario.env_names ConfigFile_zero)
                ++ [("PORT", "8080")]) k
      = Some v) /\
  (forall k,
      ~ In k (map fst (assignments scenario.env_names ConfigFile_zero)) ->
      Getenv (rev (assignments scenario.env_names ConfigFile_zero)
                ++ [("PORT", "8080")]) k
      = Getenv [("PORT", "8080")] k).
Proof.
  apply (overrideEnv_sets_all scenario.willing_os scenario.env_names
           ConfigFile_zero [("PORT", "8080")]).
  - cbn. repeat constructor; cbn; intuition discriminate.
  - reflexivity.
Defined.

(** For the existing environment [LoadEnv] reads no file and, unless an
    assignment is refused, assigns every one of the eleven variables
    from the zero configuration: "0" to the two ports, "false" to the
    error-stack flag and the empty string to the others, whatever they
    held. *)
Theorem LoadEnv_Existing_overrides os nm env :
  (forall k v, Setenv_err os k v = None) ->
  NoDup (map fst (assignments nm ConfigFile_zero)) ->
  exists env',
    LoadEnv os nm Existing env = (None, env') /\
    Getenv env' (portEnv nm) = Some "0" /\
    Getenv env' (DBPortEnv nm) = Some "0" /\
    Getenv env' (logErrorStackEnv nm) = Some "false" /\
    Getenv env' (logLevelMinEnv nm) = Some "" /\
    Getenv env' (loglevelEnv nm) = Some "" /\
    Getenv env' (DBHostEnv nm) = Some "" /\
    Getenv env' (DBNameEnv nm) = Some "" /\
    Getenv env' (DBUserEnv nm) = Some "" /\
    Getenv env' (DBPasswordEnv nm) = Some "" /\
    Getenv env' (DBSearchPathEnv nm) = Some "" /\
    Getenv env' (encryptKeyEnv nm) = Some "".
Proof.
  intros Hok Hnd.
  assert (Hrun : forall l env0,
             setenv_all os l env0 = (None, rev l ++ env0)).
  { induction l as [|[k v] l IH]; intro env0; cbn; [reflexivity|].
    rewrite Hok, IH. now rewrite <- app_assoc. }
  exists (rev (assignments nm ConfigFile_zero) ++ env).
  unfold LoadEnv, NewConfigFile, overrideEnv. cbn [N.eqb Existing].
  split; [apply Hrun|].
  destruct (setenv_all_ok os _ _ _ (Hrun _ env) Hnd) as (_ & Hset & _).
  repeat split; apply Hset; cbn; tauto.
Qed.

Lemma LoadEnv_Existing_overrides_witness :
  exists env',
    LoadEnv scenario.willing_os scenario.env_names Existing
            [("PORT", "8080")]
    = (None, env') /\
    Getenv env' "PORT" = Some "0".
Proof.
  destruct (LoadEnv_Existing_overrides scenario.willing_os
              scenario.env_names [("PORT", "8080")])
    as (env' & Hrun & Hport & _).
  - reflexivity.
  - cbn. repeat constructor; cbn; intuition discriminate.
  - exists env'. split; [exact Hrun | exact Hport].
Defined.

(** An assignment that is refused ends [overrideEnv]: the refusal is the
    error it returns, the assignments before it are made, in order, and
    none after it. *)
Theorem overrideEnv_stops_at_refusal os nm f env e env' :
  overrideEnv os nm f env = (Some e, env') ->
  exists done k v rest,
    assignments nm f = done ++ (k, v) :: rest /\
    Setenv_err os k v = Some e /\
    Forall (fun kv => Setenv_err os (fst kv) (snd kv) = None) done /\
    env' = rev done ++ env.
Proof.
  unfold overrideEnv. generalize (assignments nm f) as l.
  intro l. revert env.
  induction l as [|[k v] l IH]; intros env H; cbn in H; [discriminate|].
  destruct (Setenv_err os k v) as [e0|] eqn:Hs.
  - injection H as <- <-. exists [], k, v, l. repeat split; auto.
  - destruct (IH _ H) as (done & k' & v' & rest & -> & Hk & Hd & ->).
    exists ((k, v) :: done), k', v', rest. repeat split; auto.
    cbn. now rewrite <- app_assoc.
Qed.

Lemma overrideEnv_stops_at_refusal_witness :
  exists done k v rest,
    assignments scenario.env_names ConfigFile_zero
    = done ++ (k, v) :: rest /\
    Setenv_err scenario.port_refusing_os k v
    = Some (Errs.New "invalid argument") /\
    Forall (fun kv => Setenv_err scenario.port_refusing_os (fst kv) (snd kv)
                      = None) done /\
    [("LOG_ERROR_STACK", "false"); ("LOG_LEVEL", ""); ("LOG_LEVEL_MIN", "")]
    = rev done ++ [].
Proof.
  apply (overrideEnv_stops_at_refusal scenario.port_refusing_os
           scenario.env_names ConfigFile_zero []).
  reflexivity.
Defined.

End ConfigFacts.

(* ------------------------------------------------------------------ *)
(** ** The movie store: reads, delete and update *)
(* ------------------------------------------------------------------ *)

Module MovieFacts.
Import Moviestore.

Lemma scan_all_app (t : list Movie) (rest : list (Errs.error + Movie)) :
  forall s, scan_all (map inr t ++ rest) s = scan_all rest (s ++ t).
Proof.
  induction t as [|m t IH]; intro s; cbn.
  - now rewrite app_nil_r.
  - rewrite IH. now rewrite <- app_assoc.
Qed.

(** [FindAll] succeeds exactly on a cursor that yields at least one row,
    scans every row and reports no error at its close or after the loop;
    the list is then the rows in the order the cursor gave them. *)
Theorem FindAll_inr_iff (q : QueryResult) (s : list Movie) :
  FindAll q = inr s <->
  s <> [] /\
  exists rows, q = inr rows /\ scans rows = map inr s /\
               close_err rows = None /\ rows_err rows = None.
Proof.
  split.
  - destruct q as [e|rows]; cbn; [discriminate|].
    destruct (scan_all (scans rows) []) as [e|s0] eqn:Hs; [discriminate|].
    destruct (close_err rows) eqn:Hc; [discriminate|].
    destruct (rows_err rows) eqn:Hr; [discriminate|].
    destruct s0 as [|m s0]; cbn; [discriminate|].
    intros [= <-]. split; [discriminate|].
    apply MoviestoreFacts.scan_all_inr in Hs as (t & Ht & Hs).
    cbn in Hs. subst t. exists rows. auto.
  - intros (Hne & rows & -> & Hs & Hc & Hr). cbn.
    rewrite Hs, <- (app_nil_r (map inr s)), scan_all_app. cbn.
    rewrite Hc, Hr. destruct s; [contradiction | reflexivity].
Qed.

(** The first row that does not scan ends [FindAll]: its error is
    returned as a [Database] error, whatever the rows after it and
    whatever the cursor would report later. *)
Theorem FindAll_first_scan_error (t : list Movie) (e : Errs.error)
        (rest : list (Errs.error + Movie)) (c r : option Errs.error) :
  FindAll (inr (mkRows (map inr t ++ inl e :: rest) c r))
  = inl (Errs.Err op Errs.Database e).
Proof. cbn. rewrite scan_all_app. reflexivity. Qed.

(** On a cursor that closes without error, every error of [FindAll] is
    of the [Database] kind, except the [Validation] error for a cursor
    without rows and without errors. *)
Theorem FindAll_error_kinds (q : QueryResult) (e : Errs.error) :
  FindAll q = inl e ->
  (forall rows, q = inr rows -> close_err rows = None) ->
  Errs.KindOf e = Errs.Database \/
  (Errs.KindOf e = Errs.Validation /\
   exists rows, q = inr rows /\ scans rows = [] /\
                close_err rows = None /\ rows_err rows = None).
Proof.
  destruct q as [e0|rows]; cbn; [intros [= <-] _; now left|].
  intros H Hclose. specialize (Hclose rows eq_refl). revert H.
  destruct (scan_all (scans rows) []) as [e0|s0] eqn:Hs.
  - intros [= <-]. left.
    revert Hs. generalize (@nil Movie).
    induction (scans rows) as [|[e1|m] l IH]; intro s; cbn;
      [discriminate | intros [= <-]; reflexivity | apply IH].
  - rewrite Hclose.
    destruct (rows_err rows) eqn:Hr; [intros [= <-]; now left|].
    destruct s0 as [|m s0]; cbn; [|discriminate].
    intros [= <-]. right. split; [reflexivity|].
    apply MoviestoreFacts.scan_all_inr in Hs as (t & Ht & Hs).
    cbn in Hs. subst t. exists rows. auto.
Qed.

Lemma FindAll_error_kinds_witness :
  Errs.KindOf (Errs.Err op Errs.Validation (Errs.New "No rows returned"))
  = Errs.Database \/
  (Errs.KindOf (Errs.Err op Errs.Validation (Errs.New "No rows returned"))
   = Errs.Validation /\
   exists rows, healthy [] = inr rows /\ scans rows = [] /\
                close_err rows = None /\ rows_err rows = None).
Proof.
  apply (FindAll_error_kinds (healthy []) _ eq_refl).
  intros rows [= <-]. reflexivity.
Defined.

(** [FindByID] returns the movie the row scans to; the driver's "no rows"
    becomes a [NotExist] error, and any other error of the scan is passed
    on under the operation's name, with no kind of its own. *)
Theorem FindByID_cases (scan : Errs.error + Movie) :
  (forall m, FindByID scan = inr m <-> scan = inr m) /\
  (forall e, FindByID scan = inl e ->
             (scan = inl Errs.ErrNoRows /\ Errs.KindOf e = Errs.NotExist) \/
             (exists err, scan = inl err /\ err <> Errs.ErrNoRows /\
                          e = Errs.Err opFindByID Errs.Other err)).
Proof.
  split.
  - intro m. destruct scan as [[| | |]|m']; cbn; split;
      try discriminate; congruence.
  - intros e. destruct scan as [err|m']; cbn; [|discriminate].
    destruct err; intros [= <-];
      try (right; eexists; repeat split; discriminate).
    left. split; reflexivity.
Qed.

(** [Delete] returns no error exactly when the statement ran, its count
    of rows could be read, and the count is not 0 and not above 1; every
    error it returns is of the [Database] kind. *)
Theorem Delete_ok_iff (exec : Errs.error + (Errs.error + Z)) :
  (Delete exec = None <->
   exists n, exec = inr (inr n) /\ n <> 0%Z /\ (n <= 1)%Z) /\
  (forall e, Delete exec = Some e -> Errs.KindOf e = Errs.Database).
Proof.
  split.
  - destruct exec as [e|[e|n]]; cbn; split; try discriminate;
      try (intros (n0 & H & _); discriminate).
    + destruct (Z.eqb_spec n 0); [discriminate|].
      destruct (Z.ltb_spec 1 n); [discriminate|].
      intros _. exists n. auto.
    + intros (n0 & [= <-] & Hn & Hle).
      destruct (Z.eqb_spec n 0); [contradiction|].
      destruct (Z.ltb_spec 1 n); [lia | reflexivity].
  - intro e. destruct exec as [e0|[e0|n]]; cbn;
      try (intros [= <-]; reflexivity).
    destruct (Z.eqb n 0); [intros [= <-]; reflexivity|].
    destruct (Z.ltb 1 n); [intros [= <-]; reflexivity | discriminate].
Qed.

Lemma scan_update_inr l :
  forall m m',
    scan_update l m = inr m' ->
    Title m' = Title m /\ Year m' = Year m /\ ExternalID m' = ExternalID m /\
    UpdateUsername m' = UpdateUsername m /\
    UpdateTimestamp m' = UpdateTimestamp m /\
    (l = [] -> m' = m) /\
    (forall l0 id cu ct, l = l0 ++ [inr (id, cu, ct)] ->
                         ID m' = id /\ CreateUsername m' = cu /\
                         CreateTimestamp m' = ct).
Proof.
  induction l as [|[e|[[id cu] ct]] l IH]; intros m m' H; cbn in H.
  - injection H as <-. do 6 (split; [auto|]).
    intros l0 id cu ct Hl. destruct l0; discriminate.
  - discriminate.
  - destruct (IH _ _ H) as (H1 & H2 & H3 & H4 & H5 & Hnil & Hlast).
    cbn in H1, H2, H3, H4, H5.
    do 5 (split; [assumption|]). split; [discriminate|].
    intros l0 id' cu' ct' Hl.
    destruct l0 as [|x l1]; cbn in Hl.
    + inversion Hl; subst. rewrite (Hnil eq_refl). auto.
    + inversion Hl; subst. eapply Hlast. reflexivity.
Qed.

(** When [Update] returns no error, the movie carries an id that is not
    nil, namely the id of the last row the statement returned, and the
    fields the statement wrote are as the caller set them; when the
    statement returns no row, [Update] reports "no records updated"
    exactly if the caller's movie carried the nil id, and otherwise
    returns no error and leaves the movie as it was. *)
Theorem Update_checks_the_id (query : Errs.error + Returned) (m : Movie) :
  (forall m', Update None query m = inr m' ->
              ID m' <> 0%N /\ Title m' = Title m /\ Year m' = Year m /\
              ExternalID m' = ExternalID m /\
              exists rows, query = inr rows /\ r_err rows = None /\
                (forall l0 id cu ct,
                    r_scans rows = l0 ++ [inr (id, cu, ct)] -> ID m' = id)) /\
  Update None (inr (mkReturned [] None)) m
  = (if N.eqb (ID m) 0
     then inl (Errs.Err opUpdate Errs.Database
                 (Errs.New "Invalid ID - no records updated"))
     else inr m).
Proof.
  split; [|reflexivity].
  intros m'. destruct query as [e|rows]; cbn; [discriminate|].
  destruct (scan_update (r_scans rows) m) as [e|m1] eqn:Hs; [discriminate|].
  destruct (r_err rows) eqn:Hr; [discriminate|].
  destruct (N.eqb_spec (ID m1) 0) as [|Hid]; [discriminate|].
  intros [= <-].
  destruct (scan_update_inr _ _ _ Hs) as (H1 & H2 & H3 & _ & _ & _ & Hlast).
  repeat split; auto. exists rows. repeat split; auto.
  intros l0 id cu ct Hl. now destruct (Hlast l0 id cu ct Hl).
Qed.

End MovieFacts.

(* ------------------------------------------------------------------ *)
(** ** The request of the repository against its schema *)
(* ------------------------------------------------------------------ *)

Module RequestFacts.
Import Schema.

(** For a document whose roles list only permissions of its own
    permission list, as the request of the repository does, the schema
    asks nothing more of the permissions under the roles: the document is
    accepted exactly when its user, its permission list and the three
    fields of each role are valid. *)
Theorem accepts_reused_permissions (d : Request) :
  (forall r p, In r (roles d) -> In p (role_permissions r) ->
               In p (permissions d)) ->
  accepts d
  = User_ok (user d) && forallb Permission_ok (permissions d)
    && forallb (fun r => non_empty (role_cd r)
                         && non_empty (role_description r)
                         && is_bool (role_active r)) (roles d).
Proof.
  intro Hsub. unfold accepts, Auth_ok. rewrite andb_assoc.
  destruct (User_ok (user d)); [cbn [andb] | reflexivity].
  destruct (forallb Permission_ok (permissions d)) eqn:Hp;
    [cbn [andb] | reflexivity].
  rewrite forallb_forall in Hp.
  apply Bool.eq_iff_eq_true. rewrite !forallb_forall. split.
  - intros H r Hin. specialize (H r Hin). unfold Role_ok in H.
    apply andb_true_iff in H. tauto.
  - intros H r Hin. unfold Role_ok. rewrite (H r Hin). cbn [andb].
    apply forallb_forall. intros p Hpr. apply Hp. eauto.
Qed.

(** The request of the repository: its one role lists the eleven
    permissions of its permission list, and the schema accepts it. *)
Lemma accepts_reused_permissions_witness :
  accepts example_request = true.
Proof.
  rewrite (accepts_reused_permissions example_request).
  - reflexivity.
  - intros r p [<- | []] Hp. exact Hp.
Defined.

End RequestFacts.
Module SeedFacts.
Import store run service trace.

(** ** The steps inside the transaction *)

Lemma Keeps_refl w p : txn w = Open p -> Keeps w w.
Proof.
  intro H. split; [reflexivity|]. split; [eauto|].
  exists []. split; [now rewrite app_nil_r | constructor].
Qed.

Lemma Keeps_trans w1 w2 w3 : Keeps w1 w2 -> Keeps w2 w3 -> Keeps w1 w3.
Proof.
  intros (Hd1 & _ & evs1 & Hl1 & Hg1) (Hd2 & Ht2 & evs2 & Hl2 & Hg2).
  split; [congruence|]. split; [assumption|].
  exists (evs1 ++ evs2). split.
  - rewrite Hl2, Hl1. now rewrite app_assoc.
  - apply Forall_app. now split.
Qed.

Lemma Aborts_after o w w1 e w' :
  Keeps w w1 -> Aborts o w1 e w' -> Aborts o w e w'.
Proof.
  intros (Hd1 & _ & evs1 & Hl1 & Hg1) (Hd & Ht & evs & ev & Hl & Hg & Hb).
  split; [congruence|]. split; [assumption|].
  exists (evs1 ++ evs), ev. split; [|split].
  - rewrite Hl, Hl1. now rewrite !app_assoc.
  - apply Forall_app. now split.
  - assumption.
Qed.

(** One more good event, whatever else changes but the committed tables. *)
Lemma Keeps_event d p q n m l ev :
  good ev = true ->
  Keeps (mkWorld d (Open p) n l) (mkWorld d (Open q) m (l ++ [ev])).
Proof.
  intro H. split; [reflexivity|]. split; [simpl; eauto|].
  exists [ev]. split; [reflexivity | now constructor].
Qed.

Lemma Keeps_tick d p n m l :
  Keeps (mkWorld d (Open p) n l) (mkWorld d (Open p) m l).
Proof.
  split; [reflexivity|]. split; [simpl; eauto|].
  exists []. split; [simpl; now rewrite app_nil_r | constructor].
Qed.

Lemma Sim_bind {A B} o (c c' : M A) (k k' : A -> M B) w :
  Sim o c c' w ->
  (forall a w1, Keeps w w1 -> Sim o (k a) (k' a) w1) ->
  Sim o (bind c k) (bind c' k') w.
Proof.
  unfold Sim, bind, bind_or. intros Hc Hk.
  destruct (c w) as [[e|a] w1].
  - exact Hc.
  - destruct Hc as [-> HK]. specialize (Hk a w1 HK).
    destruct (k a w1) as [[e|b] w2].
    + eapply Aborts_after; eassumption.
    + destruct Hk as [Hk1 Hk2]. split; [assumption|].
      eapply Keeps_trans; eassumption.
Qed.

Lemma Sim_ret {A} o (a : A) w p : txn w = Open p -> Sim o (ret a) (ret a) w.
Proof.
  intro H. unfold Sim, ret. split; [reflexivity | eapply Keeps_refl; eassumption].
Qed.

Lemma Sim_uuid_New o w p :
  txn w = Open p -> Sim o (uuid_New o) (uuid_New (cure o)) w.
Proof.
  destruct w as [d t n l]; simpl; intros ->.
  split; [reflexivity | apply Keeps_tick].
Qed.

Lemma Sim_secure_NewID o w p :
  txn w = Open p -> Sim o (secure_NewID o) (secure_NewID (cure o)) w.
Proof.
  destruct w as [d t n l]; simpl; intros ->.
  split; [reflexivity | apply Keeps_tick].
Qed.

Lemma Sim_time_Now o w p :
  txn w = Open p -> Sim o (time_Now o) (time_Now (cure o)) w.
Proof.
  destruct w as [d t n l]; simpl; intros ->.
  split; [reflexivity | apply Keeps_tick].
Qed.

(** What an insert on the open transaction does. *)
Lemma tx_exec_open o s d p n l :
  tx_exec o s (mkWorld d (Open p) n l)
  = match driver o n (Exec s) with
    | Fails msg =>
        (inl (Errs.DriverErr msg),
         mkWorld d (Open p) (S n) (l ++ [EvCall (Exec s) (Fails msg)]))
    | Affects k =>
        (inr k,
         mkWorld d (Open (db_app p (insert_rows s (Z.to_nat k)))) (S n)
                 (l ++ [EvCall (Exec s) (Affects k)]))
    end.
Proof.
  unfold tx_exec, ask, bind, bind_or, get_txn, tick, emit, set_txn, fail, ret.
  simpl. destruct (driver o n (Exec s)); reflexivity.
Qed.

Lemma RollbackTx_open {A} e d p n l :
  RollbackTx (A:=A) e (mkWorld d (Open p) n l)
  = (inl e, mkWorld d RolledBack n (l ++ [EvRollback])).
Proof. reflexivity. Qed.

Lemma Aborts_now o d p n m l ev e :
  blame ev = Some e -> answered o ev -> in_tx ev = true ->
  Aborts o (mkWorld d (Open p) n l) e
         (mkWorld d RolledBack m ((l ++ [ev]) ++ [EvRollback])).
Proof.
  intros Hb Ha Hi. split; [reflexivity|]. split; [reflexivity|].
  exists [], ev. simpl. rewrite <- app_assoc. simpl.
  repeat split; auto.
Qed.


Lemma Sim_exec {B} o s (k k' : M B) w p :
  txn w = Open p -> plain s ->
  (forall w1, Keeps w w1 -> Sim o k k' w1) ->
  Sim o
    (bind_or (tx_exec o s)
       (fun err => RollbackTx (Errs.E Errs.Database err))
       (fun n => if negb (Z.eqb n 1)
                 then RollbackTx (Errs.E_str Errs.Database (rows_msg n))
                 else k))
    (bind_or (tx_exec (cure o) s)
       (fun err => RollbackTx (Errs.E Errs.Database err))
       (fun n => if negb (Z.eqb n 1)
                 then RollbackTx (Errs.E_str Errs.Database (rows_msg n))
                 else k'))
    w.
Proof.
  destruct w as [d t n l]; simpl; intros -> Hs Hk.
  unfold Sim, bind_or. rewrite !tx_exec_open. simpl.
  destruct (driver o n (Exec s)) as [msg|c] eqn:Hd.
  - rewrite RollbackTx_open. apply Aborts_now; simpl; eauto.
  - destruct (Z.eqb c 1) eqn:Hc; simpl.
    + apply Z.eqb_eq in Hc. subst c.
      match goal with |- context [k ?w1] => set (w1' := w1) end.
      assert (HK : Keeps (mkWorld d (Open p) n l) w1')
        by (apply Keeps_event; reflexivity).
      specialize (Hk w1' HK). unfold Sim in Hk.
      destruct (k w1') as [[e|b] w2].
      * eapply Aborts_after; eassumption.
      * destruct Hk. split; [assumption | eapply Keeps_trans; eassumption].
    + apply Aborts_now; simpl; eauto.
      rewrite Hc. destruct s; simpl in Hs; tauto.
Qed.

Lemma Sim_key {B} o a t (k k' : app.App -> M B) w p :
  txn w = Open p ->
  (forall a' w1, Keeps w w1 -> Sim o (k a') (k' a') w1) ->
  Sim o
    (bind_or (AddNewKey o a t)
       (fun err => RollbackTx (Errs.E Errs.Internal err)) k)
    (bind_or (AddNewKey (cure o) a t)
       (fun err => RollbackTx (Errs.E Errs.Internal err)) k')
    w.
Proof.
  destruct w as [d tx n l]; simpl; intros -> Hk.
  unfold Sim, bind_or, AddNewKey, bind, bind_or, tick, emit, fail, ret. simpl.
  destruct (new_key o n) as [msg|c] eqn:Hn.
  - apply Aborts_now; simpl; eauto.
  - match goal with |- context [k ?a1 ?w1] => set (w1' := w1); set (a1' := a1) end.
    assert (HK : Keeps (mkWorld d (Open p) n l) w1')
      by (apply Keeps_event; reflexivity).
    specialize (Hk a1' w1' HK). unfold Sim in Hk.
    destruct (k a1' w1') as [[e|b] w2].
    + eapply Aborts_after; eassumption.
    + destruct Hk. split; [assumption | eapply Keeps_trans; eassumption].
Qed.

Lemma Sim_orgkind {B} o x dsc adt
      (k k' : orgstore.CreateOrgKindParams -> M B) w p :
  txn w = Open p ->
  (forall a w1, Keeps w w1 -> Sim o (k a) (k' a) w1) ->
  Sim o
    (bind_or (createOrgKind o x dsc adt)
       (fun err => RollbackTx (Errs.E Errs.Database err)) k)
    (bind_or (createOrgKind (cure o) x dsc adt)
       (fun err => RollbackTx (Errs.E Errs.Database err)) k')
    w.
Proof.
  destruct w as [d tx n l]; simpl; intros -> Hk.
  unfold Sim, bind_or, createOrgKind, uuid_New, bind, bind_or, tick, ret.
  simpl. rewrite !tx_exec_open. simpl.
  destruct (driver o (S n) _) as [msg|c] eqn:Hd.
  - simpl. apply Aborts_now; simpl; eauto.
  - destruct (Z.eqb c 1) eqn:Hc; simpl.
    + apply Z.eqb_eq in Hc. subst c.
      match goal with |- context [k ?a1 ?w1] => set (w1' := w1); set (a1' := a1) end.
      assert (HK : Keeps (mkWorld d (Open p) n l) w1')
        by (apply Keeps_event; reflexivity).
      specialize (Hk a1' w1' HK). unfold Sim in Hk.
      destruct (k a1' w1') as [[e|b] w2].
      * eapply Aborts_after; eassumption.
      * destruct Hk. split; [assumption | eapply Keeps_trans; eassumption].
    + apply Aborts_now; simpl; eauto. now rewrite Hc.
Qed.

Lemma Sim_stdkind {B} o adt (k k' : unit -> M B) w p :
  txn w = Open p ->
  (forall w1, Keeps w w1 -> Sim o (k tt) (k' tt) w1) ->
  Sim o
    (bind_or (createStandardOrgKind o adt)
       (fun err => RollbackTx (Errs.E Errs.Database err)) k)
    (bind_or (createStandardOrgKind (cure o) adt)
       (fun err => RollbackTx (Errs.E Errs.Database err)) k')
    w.
Proof.
  intros Ht Hk.
  pose proof (Sim_orgkind o "standard"
                "The standard org is used for myriad business purposes" adt
                (fun _ => k tt) (fun _ => k' tt) w p Ht
                (fun _ w1 H => Hk w1 H)) as H.
  unfold Sim, bind_or, createStandardOrgKind, bind, bind_or, fail, ret in *.
  destruct (createOrgKind o _ _ adt w) as [[e|a] w1];
    destruct (createOrgKind (cure o) _ _ adt w) as [[e'|a'] w1'];
    exact H.
Qed.

Lemma Keeps_open w w1 : Keeps w w1 -> exists q, txn w1 = Open q.
Proof. intros (_ & H & _). exact H. Qed.

Create HintDb sim.

(** Take one step of a computation inside the transaction. *)
Ltac sim_next HK :=
  let q := fresh "q" in
  let Hq := fresh "Hq" in
  destruct (Keeps_open _ _ HK) as [q Hq]; cbv beta iota zeta.

Ltac sim_step :=
  lazymatch goal with
  | |- Sim _ (bind_or (tx_exec _ _) _ _) _ _ =>
      let HK := fresh "HK" in
      eapply Sim_exec; [eassumption | exact I | intros ? HK; sim_next HK]
  | |- Sim _ (bind_or (AddNewKey _ _ _) _ _) _ _ =>
      let HK := fresh "HK" in
      eapply Sim_key; [eassumption | intros ? ? HK; sim_next HK]
  | |- Sim _ (bind_or (createOrgKind _ _ _ _) _ _) _ _ =>
      let HK := fresh "HK" in
      eapply Sim_orgkind; [eassumption | intros ? ? HK; sim_next HK]
  | |- Sim _ (bind_or (createStandardOrgKind _ _) _ _) _ _ =>
      let HK := fresh "HK" in
      eapply Sim_stdkind; [eassumption | intros ? HK; sim_next HK]
  | |- Sim _ (bind _ _) _ _ =>
      let HK := fresh "HK" in
      eapply Sim_bind;
      [ eauto with sim
      | intros ? ? HK; sim_next HK ]
  | |- Sim _ (let (_, _) := ?x in _) _ _ => destruct x; cbv beta iota zeta
  | |- Sim _ (ret _) _ _ => eapply Sim_ret; eassumption
  end.

#[local] Hint Resolve Sim_uuid_New Sim_secure_NewID Sim_time_Now : sim.

Lemma Sim_insert_one o s w p :
  txn w = Open p -> plain s ->
  Sim o (insert_one o s) (insert_one (cure o) s) w.
Proof.
  intros Ht Hs. unfold insert_one.
  eapply Sim_exec; [eassumption | assumption |].
  intros w1 HK. destruct (Keeps_open _ _ HK) as [q Hq].
  eapply Sim_ret; eassumption.
Qed.

Lemma Sim_createOrgDB o oa w p :
  txn w = Open p -> Sim o (createOrgDB o oa) (createOrgDB (cure o) oa) w.
Proof. intro Ht. eapply Sim_insert_one; [eassumption | exact I]. Qed.

Lemma Sim_createUserDB o u adt w p :
  txn w = Open p ->
  Sim o (createUserDB o u adt) (createUserDB (cure o) u adt) w.
Proof.
  intro Ht. unfold createUserDB. cbv zeta.
  eapply Sim_bind; [eapply Sim_insert_one; [eassumption | exact I]|].
  intros _ w1 HK1. destruct (Keeps_open _ _ HK1) as [q1 Hq1].
  eapply Sim_bind; [eapply Sim_insert_one; [eassumption | exact I]|].
  intros _ w2 HK2. destruct (Keeps_open _ _ HK2) as [q2 Hq2].
  eapply Sim_insert_one; [eassumption | exact I].
Qed.

Lemma Sim_insertAPIKeys o a adt keys :
  forall w p, txn w = Open p ->
  Sim o (insertAPIKeys o a adt keys) (insertAPIKeys (cure o) a adt keys) w.
Proof.
  induction keys as [|key rest IH]; intros w p Ht; simpl.
  - eapply Sim_ret; eassumption.
  - eapply Sim_exec; [eassumption | exact I |].
    intros w1 HK. destruct (Keeps_open _ _ HK) as [q Hq]. eapply IH; eassumption.
Qed.

Lemma Sim_createPeterGabriel o o_ a w p :
  txn w = Open p ->
  Sim o (createPeterGabriel o o_ a) (createPeterGabriel (cure o) o_ a) w.
Proof. intro Ht. unfold createPeterGabriel. repeat sim_step. Qed.

Lemma Sim_createPhilCollins o o_ a w p :
  txn w = Open p ->
  Sim o (createPhilCollins o o_ a) (createPhilCollins (cure o) o_ a) w.
Proof. intro Ht. unfold createPhilCollins. repeat sim_step. Qed.

#[local] Hint Resolve Sim_createOrgDB Sim_createUserDB Sim_insertAPIKeys
  Sim_createPeterGabriel Sim_createPhilCollins : sim.

Lemma Sim_seedGenesis o w p :
  txn w = Open p -> Sim o (seedGenesis o) (seedGenesis (cure o)) w.
Proof.
  intro Ht. unfold seedGenesis, createGenesisOrgKind, createTestOrgKind.
  cbv beta iota zeta.
  repeat sim_step.
Qed.

Lemma Sim_seedTest o k w p :
  txn w = Open p -> Sim o (seedTest o k) (seedTest (cure o) k) w.
Proof.
  intro Ht. unfold seedTest. cbv beta iota zeta.
  repeat sim_step.
Qed.

(** ** The same run in another frame *)

Lemma db_app_assoc a b c : db_app (db_app a b) c = db_app a (db_app b c).
Proof. unfold db_app; simpl. now rewrite <- !app_assoc. Qed.

Lemma db_app_empty_r a : db_app a empty = a.
Proof. destruct a; unfold db_app; simpl. now rewrite !app_nil_r. Qed.

Lemma Framed_ret {A} (a : A) : Framed (ret a).
Proof. intros d p l w. reflexivity. Qed.

Lemma Framed_fail {A} e : Framed (fail (A:=A) e).
Proof. intros d p l w. reflexivity. Qed.

Lemma Framed_bind_or {A B} (c : M A) h (k : A -> M B) :
  Framed c -> (forall e, Framed (h e)) -> (forall a, Framed (k a)) ->
  Framed (bind_or c h k).
Proof.
  intros Hc Hh Hk d p l w. unfold bind_or. rewrite Hc.
  destruct (c w) as [[e|a] w1]; simpl; [apply Hh | apply Hk].
Qed.

Lemma Framed_bind {A B} (c : M A) (k : A -> M B) :
  Framed c -> (forall a, Framed (k a)) -> Framed (bind c k).
Proof.
  intros Hc Hk. apply Framed_bind_or; auto. intro e. apply Framed_fail.
Qed.

Lemma Framed_uuid_New o : Framed (uuid_New o).
Proof. intros d p l w. reflexivity. Qed.

Lemma Framed_secure_NewID o : Framed (secure_NewID o).
Proof. intros d p l w. reflexivity. Qed.

Lemma Framed_time_Now o : Framed (time_Now o).
Proof. intros d p l w. reflexivity. Qed.

Lemma Framed_AddNewKey o a t : Framed (AddNewKey o a t).
Proof.
  intros d p l [d0 t0 n0 l0].
  unfold AddNewKey, bind, bind_or, tick, emit, fail, ret, reframe; simpl.
  destruct (new_key o n0); simpl; now rewrite app_assoc.
Qed.

Lemma Framed_tx_exec o s : Framed (tx_exec o s).
Proof.
  intros d p l [d0 t0 n0 l0].
  unfold tx_exec, ask, bind, bind_or, get_txn, set_txn, tick, emit, fail, ret,
    reframe; simpl.
  destruct t0; simpl; try reflexivity.
  destruct (driver o n0 (Exec s)); simpl;
    now rewrite ?app_assoc, ?db_app_assoc.
Qed.

Lemma Framed_RollbackTx {A} e : Framed (RollbackTx (A:=A) e).
Proof.
  intros d p l [d0 t0 n0 l0].
  unfold RollbackTx, bind, bind_or, get_txn, set_txn, emit, fail, ret,
    reframe; simpl.
  destruct t0; simpl; now rewrite app_assoc.
Qed.

Create HintDb framed.
#[local] Hint Resolve Framed_ret Framed_fail Framed_uuid_New
  Framed_secure_NewID Framed_time_Now Framed_AddNewKey Framed_tx_exec
  Framed_RollbackTx : framed.

Ltac framed :=
  repeat
    (cbv beta iota zeta;
     lazymatch goal with
     | |- Framed (bind_or _ _ _) => apply Framed_bind_or; intros
     | |- Framed (bind _ _) => apply Framed_bind; intros
     | |- Framed (if ?b then _ else _) => destruct b
     | |- Framed (let (_, _) := ?x in _) => destruct x
     | |- _ => solve [auto with framed]
     end).

Lemma Framed_createOrgKind o x dsc adt : Framed (createOrgKind o x dsc adt).
Proof. unfold createOrgKind. framed. Qed.

Lemma Framed_insert_one o s : Framed (insert_one o s).
Proof. unfold insert_one. framed. Qed.

#[local] Hint Resolve Framed_createOrgKind Framed_insert_one : framed.

Lemma Framed_createUserDB o u adt : Framed (createUserDB o u adt).
Proof. unfold createUserDB. framed. Qed.

Lemma Framed_insertAPIKeys o a adt keys : Framed (insertAPIKeys o a adt keys).
Proof. induction keys as [|key rest IH]; simpl; framed. Qed.

Lemma Framed_createPeterGabriel o o_ a : Framed (createPeterGabriel o o_ a).
Proof. unfold createPeterGabriel. framed. Qed.

Lemma Framed_createPhilCollins o o_ a : Framed (createPhilCollins o o_ a).
Proof. unfold createPhilCollins. framed. Qed.

#[local] Hint Resolve Framed_createUserDB Framed_insertAPIKeys
  Framed_createPeterGabriel Framed_createPhilCollins : framed.

Lemma Framed_seedGenesis o : Framed (seedGenesis o).
Proof.
  unfold seedGenesis, createGenesisOrgKind, createTestOrgKind,
    createStandardOrgKind, createOrgDB.
  framed.
Qed.

Lemma Framed_seedTest o k : Framed (seedTest o k).
Proof. unfold seedTest, createOrgDB. framed. Qed.

Lemma Framed_seeding o : Framed (seeding o).
Proof.
  unfold seeding. apply Framed_bind; [apply Framed_seedGenesis|].
  intros [gs tk]. apply Framed_bind; [apply Framed_seedTest|].
  intro ts. apply Framed_ret.
Qed.

(** ** The whole of [Seed] *)

Lemma genesisHasOccurred_eq o d t n l :
  genesisHasOccurred o (mkWorld d t n l)
  = match driver o n read_kind with
    | Fails msg =>
        (inl (Errs.E Errs.Database (Errs.DriverErr msg)),
         mkWorld d t (S n) (l ++ [EvCall read_kind (Fails msg)]))
    | Affects k1 =>
        match driver o (S n) read_orgs with
        | Fails msg =>
            (inl (Errs.E Errs.Database (Errs.DriverErr msg)),
             mkWorld d t (S (S n))
                     ((l ++ [EvCall read_kind (Affects k1)])
                        ++ [EvCall read_orgs (Fails msg)]))
        | Affects k2 =>
            (if has_genesis d then inl prior_data else inr tt,
             mkWorld d t (S (S n))
                     ((l ++ [EvCall read_kind (Affects k1)])
                        ++ [EvCall read_orgs (Affects k2)]))
        end
    end.
Proof.
  unfold genesisHasOccurred, catch, FindOrgKindByExtlID, FindOrgsByKindExtlID,
    ask, bind, bind_or, tick, emit, get_db, fail, ret, has_genesis,
    genesis_kind, genesis_orgs, read_kind, read_orgs.
  simpl.
  destruct (driver o n _) as [msg|k1]; simpl; [reflexivity|].
  destruct (find _ (org_kind d)) as [k|]; simpl;
    (destruct (driver o (S n) _) as [msg|k2]; simpl; [reflexivity|]).
  - reflexivity.
  - destruct (negb _); reflexivity.
Qed.

Lemma BeginTx_eq o d t n l :
  BeginTx o (mkWorld d t n l)
  = match driver o n Begin with
    | Fails msg =>
        (inl (Errs.E Errs.Database (Errs.DriverErr msg)),
         mkWorld d t (S n) (l ++ [EvCall Begin (Fails msg)]))
    | Affects k =>
        (inr tt, mkWorld d (Open d) (S n) (l ++ [EvCall Begin (Affects k)]))
    end.
Proof.
  unfold BeginTx, ask, bind, bind_or, tick, emit, get_db, set_txn, fail, ret.
  simpl. destruct (driver o n Begin); reflexivity.
Qed.

Lemma CommitTx_eq o d p n l :
  CommitTx o (mkWorld d (Open p) n l)
  = match driver o n Commit with
    | Fails msg =>
        (inl (Errs.E Errs.Database (Errs.DriverErr msg)),
         mkWorld d RolledBack (S n) (l ++ [EvCall Commit (Fails msg)]))
    | Affects k =>
        (inr tt, mkWorld p Committed (S n) (l ++ [EvCall Commit (Affects k)]))
    end.
Proof.
  unfold CommitTx, ask, bind, bind_or, tick, emit, get_txn, set_db, set_txn,
    fail, ret.
  simpl. destruct (driver o n Commit); reflexivity.
Qed.

(** [Seed] is the precondition, the begin, the two seeding steps and the
    commit, one after the other. *)
Lemma Seed_eq o w :
  Seed o w
  = bind (genesisHasOccurred o) (fun _ =>
    bind (BeginTx o) (fun _ =>
    bind (seeding o) (fun r =>
    bind (CommitTx o) (fun _ => ret (response r))))) w.
Proof.
  unfold Seed, seeding, bind, bind_or.
  destruct (genesisHasOccurred o w) as [[e|[]] w1]; [reflexivity|].
  destruct (BeginTx o w1) as [[e|[]] w2]; [reflexivity|].
  destruct (seedGenesis o w2) as [[e|[gs tk]] w3]; [reflexivity|]. simpl.
  destruct (seedTest o tk w3) as [[e|ts] w4]; [reflexivity|]. simpl.
  destruct (CommitTx o w4) as [[e|[]] w5]; reflexivity.
Qed.

Lemma Sim_seeding o w p :
  txn w = Open p -> Sim o (seeding o) (seeding (cure o)) w.
Proof.
  intro Ht. unfold seeding.
  eapply Sim_bind; [eapply Sim_seedGenesis; eassumption|].
  intros [gs tk] w1 HK1. destruct (Keeps_open _ _ HK1) as [q1 Hq1]. simpl.
  eapply Sim_bind; [eapply Sim_seedTest; eassumption|].
  intros ts w2 HK2. destruct (Keeps_open _ _ HK2) as [q2 Hq2].
  eapply Sim_ret; eassumption.
Qed.

Lemma begun_reframe d l : begun d l = reframe d d l (begun empty []).
Proof.
  unfold begun, reframe. simpl. now rewrite db_app_empty_r, app_nil_r.
Qed.


Lemma bind_eq {A B} (c : M A) (k : A -> M B) w :
  bind c k w
  = match c w with
    | (inl e, w1) => (inl e, w1)
    | (inr a, w1) => k a w1
    end.
Proof. reflexivity. Qed.

Lemma Seed_run o d :
  match Seed o (start d) with
  | (inr resp, w') => Seeded o d resp w'
  | (inl e, w') => Failed o d e w'
  end.
Proof.
  rewrite Seed_eq, bind_eq. unfold start.
  rewrite genesisHasOccurred_eq.
  destruct (driver o 0 read_kind) as [msg|k1] eqn:H1;
    [now eapply Failed_read_kind; eauto|].
  destruct (driver o 1 read_orgs) as [msg|k2] eqn:H2;
    [now eapply (Failed_read_orgs o d _ _ k1 msg)|].
  destruct (has_genesis d) eqn:Hg;
    [now eapply (Failed_prior o d _ _ k1 k2)|].
  cbv beta iota. rewrite bind_eq, BeginTx_eq.
  destruct (driver o 2 Begin) as [msg|kb] eqn:H3;
    [now eapply (Failed_begin o d _ _ k1 k2 msg)|].
  cbv beta iota. rewrite bind_eq.
  change (mkWorld d (Open d) 3 _) with (begun d (prelude k1 k2 kb)).
  pose proof (Sim_seeding o (begun d (prelude k1 k2 kb)) d eq_refl) as HS.
  unfold Sim in HS.
  destruct (seeding o (begun d (prelude k1 k2 kb))) as [[e|r] w4].
  - destruct HS as (Hd & Ht & evs & ev & Hl & Hgood & Hb & Ha & Hi).
    eapply (Failed_inside o d e w4 k1 k2 kb evs ev); auto.
  - destruct HS as (Hc & HK).
    rewrite begun_reframe, Framed_seeding in Hc.
    unfold Seeded, seeded_rows, seeded.
    remember (seeding (cure o) (begun empty [])) as so eqn:Eso.
    clear Eso. destruct so as [r0 w0]. cbn [fst snd] in *.
    injection Hc as -> <-.
    destruct HK as (Hd & (q & Hq) & evs & Hl & Hgood).
    unfold reframe in *. cbn [db txn log ticks begun] in *.
    destruct (txn w0) as [|q0| |] eqn:Ht0; try discriminate.
    injection Hq as <-.
    rewrite bind_eq, CommitTx_eq.
    destruct (driver o (ticks w0) Commit) as [msg|kc] eqn:H4.
    + eapply (Failed_commit o d _ _ k1 k2 kb evs msg); cbn [db txn log]; eauto.
      * rewrite Hl. now rewrite <- app_assoc.
      * cbn. eauto.
    + split; [assumption|].
      exists k1, k2, kb, kc, r, evs. cbn [db txn log fst snd pending].
      repeat split; auto.
      * unfold pending. now rewrite Ht0.
      * rewrite Hl. now rewrite <- app_assoc.
Qed.

(** ** What every failed call leaves *)

Lemma Failed_db o d e w' :
  Failed o d e w' -> db w' = d /\ (txn w' = NoTx \/ txn w' = RolledBack).
Proof.
  intros [msg H1 He Hw | k1 msg H2 He Hw | k1 k2 Hg He Hw
         | k1 k2 msg Hg H3 He Hw
         | k1 k2 kb evs ev Hg Hd Ht Hl Hgood Hi Hb Ha
         | k1 k2 kb evs msg Hg Hd Ht Hl Hgood Ha He];
    subst; simpl; auto.
Qed.

(** ** The precondition *)

Lemma genesis_kind_None d :
  genesis_kind d = None ->
  forall k, In k (org_kind d) ->
            String.eqb (orgstore.OrgKindExtlID k) genesisOrgTypeString = false.
Proof.
  unfold genesis_kind. intros H k Hin.
  apply (find_none _ _ H k Hin).
Qed.

Lemma has_genesis_spec d :
  has_genesis d = true <->
  (exists k, In k (org_kind d) /\
             orgstore.OrgKindExtlID k = genesisOrgTypeString) \/
  (exists r, In r (store.org d) /\
             org_of_kind d genesisOrgTypeString r = true).
Proof.
  unfold has_genesis, genesis_kind, genesis_orgs. split.
  - destruct (find _ (org_kind d)) as [k|] eqn:Hf; simpl.
    + intros _. left. apply find_some in Hf as [Hin Hk].
      apply String.eqb_eq in Hk. eauto.
    + intro H. right.
      destruct (filter _ (store.org d)) as [|r rs] eqn:Hfl; [discriminate|].
      assert (Hin : In r (filter (org_of_kind d genesisOrgTypeString)
                                 (store.org d)))
        by (rewrite Hfl; now left).
      apply filter_In in Hin. eauto.
  - intros [(k & Hin & Hk) | (r & Hin & Hr)].
    + destruct (find _ (org_kind d)) as [k'|] eqn:Hf; [reflexivity|].
      apply (find_none _ _ Hf) in Hin.
      apply String.eqb_eq in Hk. congruence.
    + apply orb_true_iff. right.
      assert (Hf : In r (filter (org_of_kind d genesisOrgTypeString)
                                (store.org d)))
        by (apply filter_In; auto).
      destruct (filter _ (store.org d)); [contradiction | reflexivity].
Qed.

(** With prior genesis data [Seed] fails before it begins a transaction:
    it has only read. *)
Lemma Seed_prior o d :
  has_genesis d = true ->
  exists e w',
    Seed o (start d) = (inl e, w') /\ db w' = d /\ txn w' = NoTx /\
    (forall ev, In ev (log w') ->
                exists q a out, ev = EvCall (Query q a) out) /\
    ((exists k1 k2, driver o 0 read_kind = Affects k1 /\
                    driver o 1 read_orgs = Affects k2) ->
     e = prior_data).
Proof.
  intro Hg. pose proof (Seed_run o d) as H.
  destruct (Seed o (start d)) as [[e|resp] w'].
  - exists e, w'. split; [reflexivity|].
    destruct H as [msg H1 He Hw | k1 msg H2 He Hw | k1 k2 _ He Hw
                  | k1 k2 msg Hg' | k1 k2 kb evs ev Hg'
                  | k1 k2 kb evs msg Hg']; try congruence; subst; simpl.
    + repeat split; auto.
      * intros ev [<- | []]. unfold read_kind. eauto.
      * intros (k1 & k2 & Hk1 & _). congruence.
    + repeat split; auto.
      * intros ev [<- | [<- | []]]; unfold read_kind, read_orgs; eauto.
      * intros (k1' & k2 & _ & Hk2). congruence.
    + repeat split; auto.
      intros ev [<- | [<- | []]]; unfold read_kind, read_orgs; eauto.
  - destruct H as [Hg' _]. congruence.
Qed.

(** ** Sequences of calls *)

Lemma seeded_tables o :
  exists gk tk sk go to_,
    org_kind (seeded_rows o) = [gk; tk; sk] /\
    store.org (seeded_rows o) = [go; to_] /\
    orgstore.OrgKindExtlID gk = "genesis" /\
    orgstore.OrgKindExtlID tk = "test" /\
    orgstore.OrgKindExtlID sk = "standard" /\
    orgstore.OrgKindID gk = new_uuid o 16 /\
    orgstore.OrgKindID tk = new_uuid o 18 /\
    orgstore.OrgKindID_ go = new_uuid o 16 /\
    orgstore.OrgKindID_ to_ = new_uuid o 18.
Proof.
  destruct o. vm_compute. do 5 eexists. repeat split; reflexivity.
Qed.

Lemma has_genesis_seeded o d :
  has_genesis (db_app d (seeded_rows o)) = true.
Proof.
  apply has_genesis_spec. left.
  destruct (seeded_tables o) as (gk & tk & sk & go & to_ & Hk & _ & Hg & _).
  exists gk. split; [|exact Hg].
  unfold db_app. cbn [org_kind]. rewrite Hk. apply in_or_app. right. now left.
Qed.

Lemma Seeds_stuck os :
  forall d, has_genesis d = true -> Seeds os d = d.
Proof.
  induction os as [|o os IH]; intros d Hg; simpl; [reflexivity|].
  destruct (Seed_prior o d Hg) as (e & w' & -> & Hd & _). cbn [snd].
  rewrite Hd. now apply IH.
Qed.

Lemma Seeds_cases os :
  forall d,
    Seeds os d = d \/
    (has_genesis d = false /\
     exists o, In o os /\ Seeds os d = db_app d (seeded_rows o)).
Proof.
  induction os as [|o os IH]; intro d; simpl; [now left|].
  pose proof (Seed_run o d) as H.
  destruct (Seed o (start d)) as [[e|resp] w']; cbn [snd].
  - apply Failed_db in H as [-> _].
    destruct (IH d) as [-> | (Hg & o' & Hin & ->)]; [now left|].
    right. split; [assumption|]. exists o'. split; [now right | reflexivity].
  - destruct H as (Hg & k1 & k2 & kb & kc & r & evs & _ & _ & -> & _).
    right. split; [assumption|]. exists o. split; [now left|].
    apply Seeds_stuck, has_genesis_seeded.
Qed.

Lemma filter_none {A} (f : A -> bool) (l : list A) :
  (forall x, In x l -> f x = false) -> filter f l = [].
Proof.
  induction l as [|x l IH]; intro H; [reflexivity|]. cbn [filter].
  rewrite (H x (or_introl eq_refl)). apply IH.
  intros y Hy. apply H. now right.
Qed.

(** Tables without the genesis kind, with three kinds and two orgs
    added, the first org of the first kind, which is the genesis kind. *)
Lemma genesis_orgs_added d rows gk tk sk go to_ :
  genesis_kind d = None ->
  org_kind rows = [gk; tk; sk] -> store.org rows = [go; to_] ->
  orgstore.OrgKindExtlID gk = "genesis" ->
  orgstore.OrgKindExtlID tk = "test" ->
  orgstore.OrgKindExtlID sk = "standard" ->
  orgstore.OrgKindID_ go = orgstore.OrgKindID gk ->
  orgstore.OrgKindID_ to_ <> orgstore.OrgKindID gk ->
  (forall r, In r (store.org d) ->
             orgstore.OrgKindID_ r <> orgstore.OrgKindID gk) ->
  genesis_orgs (db_app d rows) = [go].
Proof.
  intros Hnone Hk Ho Eg Et Es Kg Kt Hnew.
  pose proof (genesis_kind_None d Hnone) as Hno.
  assert (Hof : forall r,
             org_of_kind (db_app d rows) genesisOrgTypeString r
             = N.eqb (orgstore.OrgKindID gk) (orgstore.OrgKindID_ r)).
  { intro r. unfold org_of_kind, db_app. cbn [org_kind].
    rewrite Hk, existsb_app.
    replace (existsb _ (org_kind d)) with false.
    - cbn [existsb orb]. rewrite Eg, Et, Es. cbn.
      now rewrite andb_true_r, !andb_false_r, !orb_false_r.
    - symmetry. apply not_true_is_false. intro Hex.
      apply existsb_exists in Hex as (k & Hin & Hk').
      apply andb_true_iff in Hk' as [_ Hk']. rewrite (Hno k Hin) in Hk'.
      discriminate. }
  unfold genesis_orgs.
  rewrite (filter_ext _ _ Hof).
  unfold db_app at 1. cbn [store.org]. rewrite Ho, filter_app.
  replace (filter _ (store.org d)) with (@nil orgstore.CreateOrgParams).
  - cbn [filter app]. rewrite Kg, N.eqb_refl.
    destruct (N.eqb_spec (orgstore.OrgKindID gk) (orgstore.OrgKindID_ to_))
      as [E|_]; [symmetry in E; contradiction | reflexivity].
  - symmetry. apply filter_none. intros r Hin.
    apply N.eqb_neq. intro E. exact (Hnew r Hin (eq_sym E)).
Qed.

Lemma genesis_orgs_seeded o d :
  has_genesis d = false -> fresh o d ->
  List.length (genesis_orgs (db_app d (seeded_rows o))) = 1.
Proof.
  intros Hg [Hinj Hnew].
  unfold has_genesis in Hg. apply orb_false_iff in Hg as [Hgk _].
  assert (Hnone : genesis_kind d = None)
    by (destruct (genesis_kind d); [discriminate | reflexivity]).
  destruct (seeded_tables o)
    as (gk & tk & sk & go & to_ & Hk & Ho & Eg & Et & Es & Ig & It & Kg & Kt).
  rewrite (genesis_orgs_added d _ gk tk sk go to_ Hnone Hk Ho Eg Et Es).
  - reflexivity.
  - now rewrite Kg, Ig.
  - rewrite Kt, Ig. intro E. apply Hinj in E. inversion E.
  - intros r Hin. rewrite Ig. apply Hnew. exact Hin.
Qed.

(** C1. When an org-kind row "genesis" or an org row of the genesis kind
    exists, [Seed] fails without writing: the tables are as before, no
    transaction was begun, the log holds nothing but reads, and the error
    is the [Validation] error whenever the store answers the two reads.
    So, over any sequence of calls whose fresh ids are fresh, tables with
    at most one genesis org never come to hold two. *)
Theorem Seed_guards_genesis :
  (forall o d,
      ((exists k, In k (org_kind d) /\
                  orgstore.OrgKindExtlID k = genesisOrgTypeString) \/
       (exists r, In r (store.org d) /\
                  org_of_kind d genesisOrgTypeString r = true)) ->
      exists e w',
        Seed o (start d) = (inl e, w') /\ db w' = d /\ txn w' = NoTx /\
        (forall ev, In ev (log w') ->
                    exists q a out, ev = EvCall (Query q a) out) /\
        ((exists k1 k2, driver o 0 read_kind = Affects k1 /\
                        driver o 1 read_orgs = Affects k2) ->
         Errs.KindOf e = Errs.Validation)) /\
  (forall os d,
      List.length (genesis_orgs d) <= 1 ->
      Forall (fun o => fresh o d) os ->
      List.length (genesis_orgs (Seeds os d)) <= 1).
Proof.
  split.
  - intros o d Hprior. apply has_genesis_spec in Hprior.
    destruct (Seed_prior o d Hprior) as (e & w' & Hs & Hd & Ht & Hl & He).
    exists e, w'. repeat split; auto.
    intro Hans. rewrite (He Hans). reflexivity.
  - intros os d Hlen Hfresh.
    destruct (Seeds_cases os d) as [-> | (Hg & o & Hin & ->)];
      [assumption|].
    rewrite genesis_orgs_seeded; [constructor | assumption |].
    rewrite Forall_forall in Hfresh. now apply Hfresh.
Qed.

(** ** What a successful call adds *)





(** ** The event a failed call is blamed on *)

Lemma good_prelude k1 k2 kb :
  Forall (fun ev => good ev = true) (prelude k1 k2 kb).
Proof. repeat constructor. Qed.

Lemma Seeded_good o d resp w' :
  Seeded o d resp w' -> Forall (fun ev => good ev = true) (log w').
Proof.
  intros (_ & k1 & k2 & kb & kc & r & evs & _ & _ & _ & _ & -> & Hgood).
  apply Forall_app. split; [apply good_prelude|].
  apply Forall_app. split; [assumption | repeat constructor].
Qed.

Lemma not_good_in evs ev :
  Forall (fun ev => good ev = true) evs -> good ev = false -> ~ In ev evs.
Proof.
  intros Hall Hbad Hin. rewrite Forall_forall in Hall.
  specialize (Hall ev Hin). congruence.
Qed.

Lemma Failed_blamed o d e w' ev :
  Failed o d e w' -> In ev (log w') -> good ev = false -> ev <> EvRollback ->
  blame ev = Some e /\
  (in_tx ev = true ->
   txn w' = RolledBack /\ exists evs, log w' = evs ++ [ev; EvRollback]).
Proof.
  intros [msg H1 He Hw | k1 msg H2 He Hw | k1 k2 Hg He Hw
         | k1 k2 msg Hg H3 He Hw
         | k1 k2 kb evs ev0 Hg Hd Ht Hl Hgood Hi Hb Ha
         | k1 k2 kb evs msg Hg Hd Ht Hl Hgood Ha He] Hin Hbad Hrb.
  - subst. destruct Hin as [<- | []]. split; [reflexivity | discriminate].
  - subst. destruct Hin as [<- | [<- | []]]; [discriminate|].
    split; [reflexivity | discriminate].
  - subst. destruct Hin as [<- | [<- | []]]; discriminate.
  - subst. destruct Hin as [<- | [<- | [<- | []]]]; try discriminate.
    split; [reflexivity | discriminate].
  - rewrite Hl in Hin. apply in_app_or in Hin as [Hin | Hin];
      [destruct (not_good_in _ _ (good_prelude k1 k2 kb) Hbad Hin)|].
    apply in_app_or in Hin as [Hin | Hin];
      [destruct (not_good_in _ _ Hgood Hbad Hin)|].
    destruct Hin as [<- | [<- | []]]; [|congruence].
    split; [assumption|]. intros _. split; [assumption|].
    exists (prelude k1 k2 kb ++ evs). rewrite Hl. now rewrite <- app_assoc.
  - rewrite Hl in Hin. apply in_app_or in Hin as [Hin | Hin];
      [destruct (not_good_in _ _ (good_prelude k1 k2 kb) Hbad Hin)|].
    apply in_app_or in Hin as [Hin | Hin];
      [destruct (not_good_in _ _ Hgood Hbad Hin)|].
    destruct Hin as [<- | []]. subst e.
    split; [reflexivity | discriminate].
Qed.

(** Every event of a run that is not good and not the rollback is the
    one the run failed on. *)
Lemma Seed_blamed o d r w' ev :
  Seed o (start d) = (r, w') -> In ev (log w') -> good ev = false ->
  ev <> EvRollback ->
  exists e,
    r = inl e /\ blame ev = Some e /\ db w' = d /\
    (in_tx ev = true ->
     txn w' = RolledBack /\ exists evs, log w' = evs ++ [ev; EvRollback]).
Proof.
  intros Hs Hin Hbad Hrb. pose proof (Seed_run o d) as H. rewrite Hs in H.
  destruct r as [e|resp].
  - exists e. split; [reflexivity|].
    destruct (Failed_blamed o d e w' ev H Hin Hbad Hrb) as [Hb Ht].
    destruct (Failed_db o d e w' H) as [Hd _]. auto.
  - apply Seeded_good in H.
    destruct (not_good_in _ _ H Hbad Hin).
Qed.

(** C3. When [Seed] fails, whatever the step that failed, the tables are
    those it started from and no transaction is left open; in particular
    when the store fails the insert of an api key, [Seed] returns that
    failure as a [Database] error and the rollback is the last event of
    the run. *)
Theorem Seed_failure_leaves_tables o d e w' :
  Seed o (start d) = (inl e, w') ->
  db w' = d /\ (txn w' = NoTx \/ txn w' = RolledBack) /\
  (forall p msg,
      In (EvCall (Exec (CreateAppAPIKey p)) (Fails msg)) (log w') ->
      e = Errs.E Errs.Database (Errs.DriverErr msg) /\
      txn w' = RolledBack /\
      exists evs,
        log w' = evs ++ [EvCall (Exec (CreateAppAPIKey p)) (Fails msg);
                         EvRollback]).
Proof.
  intro Hs. pose proof (Seed_run o d) as H. rewrite Hs in H.
  destruct (Failed_db o d e w' H) as [Hd Ht].
  split; [assumption|]. split; [assumption|].
  intros p msg Hin.
  destruct (Seed_blamed o d _ w' _ Hs Hin eq_refl) as (e' & He & Hb & _ & Hr);
    [discriminate|].
  injection He as <-. cbn in Hb. injection Hb as <-.
  destruct (Hr eq_refl) as [Hrb Hl]. auto.
Qed.

(** The store fails the insert of the root app's api key: nothing of the
    attempt is left. *)
Lemma Seed_failure_leaves_tables_witness :
  db (snd (Seed scenario.key_insert_fails (start empty))) = empty /\
  (txn (snd (Seed scenario.key_insert_fails (start empty))) = NoTx \/
   txn (snd (Seed scenario.key_insert_fails (start empty))) = RolledBack) /\
  (forall p msg,
      In (EvCall (Exec (CreateAppAPIKey p)) (Fails msg))
         (log (snd (Seed scenario.key_insert_fails (start empty)))) ->
      Errs.E Errs.Database (Errs.DriverErr "connection reset")
      = Errs.E Errs.Database (Errs.DriverErr msg) /\
      txn (snd (Seed scenario.key_insert_fails (start empty))) = RolledBack /\
      exists evs,
        log (snd (Seed scenario.key_insert_fails (start empty)))
        = evs ++ [EvCall (Exec (CreateAppAPIKey p)) (Fails msg);
                  EvRollback]).
Proof.
  apply (Seed_failure_leaves_tables scenario.key_insert_fails empty
           (Errs.E Errs.Database (Errs.DriverErr "connection reset"))).
  vm_compute. reflexivity.
Defined.

(** C4. Whenever an insert of a run of [Seed] reports a count of rows
    other than one, the app and api-key inserts among them, the call
    fails with a [Database] error although the statement itself did not
    fail, the transaction is rolled back right after that insert, and the
    tables are those the call started from. *)
Theorem Seed_row_count_guard o d r w' s n :
  Seed o (start d) = (r, w') ->
  In (EvCall (Exec s) (Affects n)) (log w') -> n <> 1%Z ->
  exists e,
    r = inl e /\ Errs.KindOf e = Errs.Database /\
    (plain s -> e = Errs.E_str Errs.Database (rows_msg n)) /\
    db w' = d /\ txn w' = RolledBack /\
    exists evs, log w' = evs ++ [EvCall (Exec s) (Affects n); EvRollback].
Proof.
  intros Hs Hin Hn. apply Z.eqb_neq in Hn.
  assert (Hbad : good (EvCall (Exec s) (Affects n)) = false)
    by (cbn; rewrite Hn; destruct s; reflexivity).
  destruct (Seed_blamed o d r w' _ Hs Hin Hbad) as (e & -> & Hb & Hd & Hr);
    [discriminate|].
  exists e. split; [reflexivity|].
  destruct (Hr eq_refl) as [Ht Hl].
  cbn in Hb. rewrite Hn in Hb.
  repeat split; auto.
  - destruct s; injection Hb as <-; reflexivity.
  - intro Hp. destruct s; try (injection Hb as <-; reflexivity).
    destruct Hp.
Qed.

(** The store reports no row for the insert of the root app. *)
Lemma Seed_row_count_guard_witness :
  exists s e,
    In (EvCall (Exec s) (Affects 0))
       (log (snd (Seed scenario.app_insert_miscounts (start empty)))) /\
    fst (Seed scenario.app_insert_miscounts (start empty)) = inl e /\
    Errs.KindOf e = Errs.Database /\
    db (snd (Seed scenario.app_insert_miscounts (start empty))) = empty /\
    txn (snd (Seed scenario.app_insert_miscounts (start empty)))
    = RolledBack.
Proof.
  assert (Hrun : Seed scenario.app_insert_miscounts (start empty)
                 = (fst (Seed scenario.app_insert_miscounts (start empty)),
                    snd (Seed scenario.app_insert_miscounts (start empty))))
    by (vm_compute; reflexivity).
  assert (Hin : exists s,
             In (EvCall (Exec s) (Affects 0))
                (log (snd (Seed scenario.app_insert_miscounts
                                (start empty))))).
  { vm_compute. eexists. do 8 right. left. reflexivity. }
  destruct Hin as [s Hin].
  destruct (Seed_row_count_guard _ _ _ _ s 0%Z Hrun Hin)
    as (e & He & Hk & _ & Hd & Ht & _); [discriminate|].
  exists s, e. exact (conj Hin (conj He (conj Hk (conj Hd Ht)))).
Defined.

(** ** The kinds of the errors *)

Lemma blame_call_kind c out e :
  blame (EvCall c out) = Some e -> Errs.KindOf e = Errs.Database.
Proof.
  destruct out as [msg|n]; cbn.
  - destruct c; intros [= <-]; reflexivity.
  - destruct c as [q a|s| |]; try discriminate.
    destruct (Z.eqb n 1); [discriminate|].
    destruct s; intros [= <-]; reflexivity.
Qed.

Lemma blame_keygen_kind r e :
  blame (EvKeyGen r) = Some e -> Errs.KindOf e = Errs.Internal.
Proof. destruct r; [intros [= <-]; reflexivity | discriminate]. Qed.

Lemma blame_not_good ev e :
  blame ev = Some e -> good ev = false /\ ev <> EvRollback.
Proof.
  intro H. split; [|intros ->; discriminate].
  unfold good. rewrite H. destruct ev; reflexivity.
Qed.

Lemma good_no_rollback evs :
  Forall (fun ev => good ev = true) evs -> ~ In EvRollback evs.
Proof. intro H. apply (not_good_in evs EvRollback H). reflexivity. Qed.

(** Where the event a failed call is blamed on stands in the log, and
    what became of the transaction: an insert or a key generation is
    followed by the rollback; a read, the begin or the commit is the last
    event, and the log has no rollback. *)
Lemma Failed_shape o d e w' ev e0 :
  Failed o d e w' -> In ev (log w') -> blame ev = Some e0 ->
  e0 = e /\
  exists evs,
    if in_tx ev
    then txn w' = RolledBack /\ log w' = evs ++ [ev; EvRollback]
    else log w' = evs ++ [ev] /\ ~ In EvRollback (log w') /\
         txn w' = match ev with
                  | EvCall Commit _ => RolledBack
                  | _ => NoTx
                  end.
Proof.
  intros H Hin Hb. destruct (blame_not_good ev e0 Hb) as [Hbad Hrb].
  destruct (Failed_blamed o d e w' ev H Hin Hbad Hrb) as [Hb' Htx].
  split; [congruence|].
  destruct H as [msg H1 He Hw | k1 msg H2 He Hw | k1 k2 Hg He Hw
                | k1 k2 msg Hg H3 He Hw
                | k1 k2 kb evs ev0 Hg Hd Ht Hl Hgood Hi Hb0 Ha
                | k1 k2 kb evs msg Hg Hd Ht Hl Hgood Ha He].
  - subst w'. destruct Hin as [<- | []]. exists []. cbn.
    repeat split. intros [H | []]; discriminate.
  - subst w'. destruct Hin as [<- | [<- | []]]; [discriminate|].
    exists [EvCall read_kind (Affects k1)]. cbn.
    repeat split. intros [H | [H | []]]; discriminate.
  - subst w'. destruct Hin as [<- | [<- | []]]; discriminate.
  - subst w'. destruct Hin as [<- | [<- | [<- | []]]]; try discriminate.
    exists [EvCall read_kind (Affects k1); EvCall read_orgs (Affects k2)].
    cbn. repeat split. intros [H | [H | [H | []]]]; discriminate.
  - rewrite Hl in Hin. apply in_app_or in Hin as [Hin | Hin];
      [destruct (not_good_in _ _ (good_prelude k1 k2 kb) Hbad Hin)|].
    apply in_app_or in Hin as [Hin | Hin];
      [destruct (not_good_in _ _ Hgood Hbad Hin)|].
    destruct Hin as [<- | [<- | []]]; [|congruence].
    destruct (Htx Hi) as [Hr [evs' Hl']]. exists evs'. rewrite Hi. auto.
  - rewrite Hl in Hin. apply in_app_or in Hin as [Hin | Hin];
      [destruct (not_good_in _ _ (good_prelude k1 k2 kb) Hbad Hin)|].
    apply in_app_or in Hin as [Hin | Hin];
      [destruct (not_good_in _ _ Hgood Hbad Hin)|].
    destruct Hin as [<- | []].
    exists (prelude k1 k2 kb ++ evs). cbn [in_tx].
    split; [rewrite Hl; now rewrite <- app_assoc|]. split; [|exact Ht].
    rewrite Hl. intro Hr.
    apply in_app_or in Hr as [Hr | Hr];
      [exact (good_no_rollback _ (good_prelude k1 k2 kb) Hr)|].
    apply in_app_or in Hr as [Hr | [Hr | []]];
      [exact (good_no_rollback _ Hgood Hr) | discriminate].
Qed.

(** Every error of a failed call is the precondition's, or the one its
    log blames an event for. *)
Lemma Failed_cause o d e w' :
  Failed o d e w' ->
  (e = prior_data /\ has_genesis d = true /\ txn w' = NoTx /\
   ~ In EvRollback (log w')) \/
  exists ev, In ev (log w') /\ blame ev = Some e.
Proof.
  intros [msg H1 He Hw | k1 msg H2 He Hw | k1 k2 Hg He Hw
         | k1 k2 msg Hg H3 He Hw
         | k1 k2 kb evs ev0 Hg Hd Ht Hl Hgood Hi Hb0 Ha
         | k1 k2 kb evs msg Hg Hd Ht Hl Hgood Ha He].
  - right. subst. eexists. split; [left; reflexivity | reflexivity].
  - right. subst. eexists. split; [right; left; reflexivity | reflexivity].
  - left. subst. repeat split; auto. intros [H | [H | []]]; discriminate.
  - right. subst. eexists.
    split; [right; right; left; reflexivity | reflexivity].
  - right. exists ev0. split; [|assumption].
    rewrite Hl. apply in_or_app. right. apply in_or_app. right. now left.
  - right. subst e. exists (EvCall Commit (Fails msg)). split; [|reflexivity].
    rewrite Hl. apply in_or_app. right. apply in_or_app. right. now left.
Qed.

(** C5. [Seed] classifies every failure by kind.  Whenever a call of the
    store fails or an insert reports another count than one row, [Seed]
    returns a [Database] error; whenever a key generation fails, it
    returns an [Internal] error; a failed insert or key generation is
    followed at once by the rollback.  A failed read or begin comes
    before there is a transaction, and a failed commit is returned as it
    is: these [Database] errors come with no rollback in the log.  With
    prior genesis data, once the two reads are answered, [Seed] returns
    the [Validation] error with no transaction begun and nothing rolled
    back.  [Seed] returns no other error, and the tables are untouched
    by each of these. *)
Theorem Seed_error_kinds o d r w' :
  Seed o (start d) = (r, w') ->
  (forall ev e,
      In ev (log w') -> blame ev = Some e ->
      r = inl e /\ db w' = d /\
      match ev with
      | EvKeyGen _ =>
          Errs.KindOf e = Errs.Internal /\ txn w' = RolledBack /\
          exists evs, log w' = evs ++ [ev; EvRollback]
      | EvCall (Exec _) _ =>
          Errs.KindOf e = Errs.Database /\ txn w' = RolledBack /\
          exists evs, log w' = evs ++ [ev; EvRollback]
      | EvCall Commit _ =>
          Errs.KindOf e = Errs.Database /\ txn w' = RolledBack /\
          (exists evs, log w' = evs ++ [ev]) /\ ~ In EvRollback (log w')
      | EvCall _ _ =>
          Errs.KindOf e = Errs.Database /\ txn w' = NoTx /\
          (exists evs, log w' = evs ++ [ev]) /\ ~ In EvRollback (log w')
      | EvRollback => False
      end) /\
  (has_genesis d = true ->
   forall k1 k2,
     driver o 0 read_kind = Affects k1 ->
     driver o 1 read_orgs = Affects k2 ->
     r = inl prior_data /\
     Errs.KindOf prior_data = Errs.Validation /\
     w' = mkWorld d NoTx 2
            [EvCall read_kind (Affects k1); EvCall read_orgs (Affects k2)]) /\
  (forall e,
      r = inl e ->
      (e = prior_data /\ has_genesis d = true /\ txn w' = NoTx /\
       ~ In EvRollback (log w')) \/
      exists ev, In ev (log w') /\ blame ev = Some e).
Proof.
  intro Hs. pose proof (Seed_run o d) as H. rewrite Hs in H.
  split; [|split].
  - intros ev e Hin Hb. destruct (blame_not_good ev e Hb) as [Hbad Hrb].
    destruct r as [e'|resp];
      [|apply Seeded_good in H; destruct (not_good_in _ _ H Hbad Hin)].
    destruct (Failed_shape o d e' w' ev e H Hin Hb) as [<- [evs Hsh]].
    destruct (Failed_db o d e w' H) as [Hd _].
    split; [reflexivity|]. split; [exact Hd|].
    destruct ev as [c out | res |]; [| |discriminate].
    + pose proof (blame_call_kind c out e Hb) as Hk.
      destruct c as [q a | s | |]; cbn [in_tx] in Hsh;
        destruct Hsh as (H1 & H2 & H3) || destruct Hsh as (H1 & H2);
        repeat split; eauto.
    + pose proof (blame_keygen_kind res e Hb) as Hk.
      cbn [in_tx] in Hsh. destruct Hsh as (H1 & H2). repeat split; eauto.
  - intros Hg k1 k2 H1 H2.
    rewrite Seed_eq, bind_eq in Hs. unfold start in Hs.
    rewrite genesisHasOccurred_eq, H1, H2, Hg in Hs.
    injection Hs as <- <-. repeat split.
  - intros e ->. exact (Failed_cause o d e w' H).
Qed.

(** The key generator fails: [Seed] returns the [Internal] error, the
    tables are untouched and the rollback follows the failed
    generation. *)
Lemma Seed_error_kinds_witness :
  fst (Seed scenario.keygen_fails (start empty))
  = inl (Errs.E Errs.Internal (Errs.New "no entropy")) /\
  db (snd (Seed scenario.keygen_fails (start empty))) = empty /\
  txn (snd (Seed scenario.keygen_fails (start empty))) = RolledBack /\
  exists evs,
    log (snd (Seed scenario.keygen_fails (start empty)))
    = evs ++ [EvKeyGen (inl "no entropy"); EvRollback].
Proof.
  assert (Hrun : Seed scenario.keygen_fails (start empty)
                 = (fst (Seed scenario.keygen_fails (start empty)),
                    snd (Seed scenario.keygen_fails (start empty))))
    by (vm_compute; reflexivity).
  assert (Hin : In (EvKeyGen (inl "no entropy"))
                   (log (snd (Seed scenario.keygen_fails (start empty)))))
    by (vm_compute; do 3 right; left; reflexivity).
  destruct (Seed_error_kinds _ _ _ _ Hrun) as [H _].
  destruct (H _ (Errs.E Errs.Internal (Errs.New "no entropy")) Hin eq_refl)
    as (He & Hd & _ & Ht & Hl).
  exact (conj He (conj Hd (conj Ht Hl))).
Defined.

(** A [Database] error with no rollback: the store fails the first read
    of the precondition.  [Seed] returns the failure as a [Database]
    error; no transaction was begun and the run has rolled none back. *)
Lemma Seed_read_failure_no_rollback :
  Seed scenario.reads_fail (start empty)
  = (inl (Errs.E Errs.Database (Errs.DriverErr "connection refused")),
     mkWorld empty NoTx 1 [EvCall read_kind (Fails "connection refused")]) /\
  Errs.KindOf (Errs.E Errs.Database (Errs.DriverErr "connection refused"))
  = Errs.Database /\
  ~ In EvRollback [EvCall read_kind (Fails "connection refused")].
Proof.
  split; [vm_compute; reflexivity|].
  split; [reflexivity|]. intros [H | []]. discriminate.
Qed.

(** ** The audit of the genesis set *)

Lemma open_reframe d p n l :
  mkWorld d (Open p) n l = reframe d p l (canon n).
Proof.
  unfold reframe, canon. cbn [txn ticks log].
  now rewrite db_app_empty_r, app_nil_r.
Qed.

(** A genesis step that succeeds is the step without failures, seen from
    the world it started in. *)
Lemma seedGenesis_inr o w p gs tk w' :
  txn w = Open p -> seedGenesis o w = (inr (gs, tk), w') ->
  fst (genesis_from o (ticks w)) = inr (gs, tk) /\
  w' = reframe (db w) p (log w) (snd (genesis_from o (ticks w))).
Proof.
  intros Ht Hs. pose proof (Sim_seedGenesis o w p Ht) as H.
  unfold Sim in H. rewrite Hs in H. destruct H as [Hc _].
  destruct w as [d t n l]. cbn [txn] in Ht. subst t.
  rewrite open_reframe, Framed_seedGenesis in Hc.
  unfold genesis_from. cbn [db ticks log].
  remember (seedGenesis (cure o) (canon n)) as g eqn:Eg. clear Eg.
  destruct g as [r0 w0]. cbn [fst snd] in *.
  injection Hc as -> <-. split; reflexivity.
Qed.

Lemma genesis_from_audit o n :
  exists w1 w3 gs tk rows w2 w4 pgAudit pcUser pcAudit,
    fst (genesis_from o n) = inr (gs, tk) /\
    txn (snd (genesis_from o n)) = Open rows /\
    createPeterGabriel o (app.Org (app gs)) (app gs) w1
    = (inr (user gs, pgAudit), w2) /\
    createPhilCollins o (app.Org (app gs)) (app gs) w3
    = (inr (pcUser, pcAudit), w4) /\
    audit gs = audit.mkSimpleAudit pgAudit pgAudit /\
    map orgstore.OrgKindStamp (org_kind rows)
    = repeat (datastore.stamp_of pgAudit) 3 /\
    map orgstore.OrgStamp (store.org rows) = [datastore.stamp_of pgAudit] /\
    map appstore.AppStamp (store.app rows) = [datastore.stamp_of pgAudit] /\
    map appstore.KeyStamp (app_api_key rows)
    = map (fun _ => datastore.stamp_of pgAudit) (app.APIKeys (app gs)) /\
    map personstore.PersonStamp (person rows)
    = [datastore.stamp_of pgAudit; datastore.stamp_of pcAudit] /\
    map personstore.ProfileStamp (person_profile rows)
    = [datastore.stamp_of pgAudit; datastore.stamp_of pcAudit] /\
    map userstore.UserStamp (users rows)
    = [datastore.stamp_of pgAudit; datastore.stamp_of pcAudit] /\
    map userstore.UserID (users rows) = [user.ID (user gs); user.ID pcUser].
Proof.
  exists (canon (5 + n)), (canon (9 + n)).
  destruct o. vm_compute. do 8 eexists. repeat split.
Qed.

(** C7 (as amended). A genesis step that succeeds returns, as both
    [First] and [Last] of its audit, the one audit [createPeterGabriel]
    built of the root app, the first admin user and a moment; the three
    org-kind rows, the org row, the app row, every api-key row and the
    person, profile and user rows of the first admin carry it as their
    creation and as their update, while the rows of the second admin carry
    the audit [createPhilCollins] built: the root app, the second admin
    himself and a moment of its own. *)
Theorem seedGenesis_audit o w p gs tk w' :
  txn w = Open p -> seedGenesis o w = (inr (gs, tk), w') ->
  exists rows w1 w2 w3 w4 pgAudit pcUser pcAudit,
    txn w' = Open (db_app p rows) /\
    createPeterGabriel o (app.Org (app gs)) (app gs) w1
    = (inr (user gs, pgAudit), w2) /\
    createPhilCollins o (app.Org (app gs)) (app gs) w3
    = (inr (pcUser, pcAudit), w4) /\
    audit gs = audit.mkSimpleAudit pgAudit pgAudit /\
    map orgstore.OrgKindStamp (org_kind rows)
    = repeat (datastore.stamp_of pgAudit) 3 /\
    map orgstore.OrgStamp (store.org rows) = [datastore.stamp_of pgAudit] /\
    map appstore.AppStamp (store.app rows) = [datastore.stamp_of pgAudit] /\
    map appstore.KeyStamp (app_api_key rows)
    = map (fun _ => datastore.stamp_of pgAudit) (app.APIKeys (app gs)) /\
    map personstore.PersonStamp (person rows)
    = [datastore.stamp_of pgAudit; datastore.stamp_of pcAudit] /\
    map personstore.ProfileStamp (person_profile rows)
    = [datastore.stamp_of pgAudit; datastore.stamp_of pcAudit] /\
    map userstore.UserStamp (users rows)
    = [datastore.stamp_of pgAudit; datastore.stamp_of pcAudit] /\
    map userstore.UserID (users rows) = [user.ID (user gs); user.ID pcUser].
Proof.
  intros Ht Hs.
  destruct (seedGenesis_inr o w p gs tk w' Ht Hs) as [Hr Hw].
  destruct (genesis_from_audit o (ticks w))
    as (w1 & w3 & gs' & tk' & rows & w2 & w4 & pgAudit & pcUser & pcAudit
        & Hr' & Hrows & Hrest).
  rewrite Hr in Hr'. injection Hr' as <- <-.
  exists rows, w1, w2, w3, w4, pgAudit, pcUser, pcAudit.
  split; [|exact Hrest].
  rewrite Hw. unfold reframe. cbn [txn]. now rewrite Hrows.
Qed.

(** The genesis step on an empty open transaction with a store that does
    not fail. *)
Lemma seedGenesis_audit_witness :
  exists gs tk pgAudit pcAudit rows,
    fst (seedGenesis scenario.steady (canon 3)) = inr (gs, tk) /\
    txn (snd (seedGenesis scenario.steady (canon 3)))
    = Open (db_app empty rows) /\
    audit gs = audit.mkSimpleAudit pgAudit pgAudit /\
    map userstore.UserStamp (users rows)
    = [datastore.stamp_of pgAudit; datastore.stamp_of pcAudit].
Proof.
  assert (Hrun : exists gs tk,
             seedGenesis scenario.steady (canon 3)
             = (inr (gs, tk), snd (seedGenesis scenario.steady (canon 3)))).
  { vm_compute. do 2 eexists. reflexivity. }
  destruct Hrun as (gs & tk & Hrun).
  destruct (seedGenesis_audit scenario.steady (canon 3) empty gs tk _
              eq_refl Hrun)
    as (rows & w1 & w2 & w3 & w4 & pgAudit & pcUser & pcAudit & Ht & _ & _
        & Ha & _ & _ & _ & _ & _ & _ & Hu & _).
  exists gs, tk, pgAudit, pcAudit, rows.
  split; [rewrite Hrun; reflexivity|].
  exact (conj Ht (conj Ha Hu)).
Defined.

(** C7, as stated, fails: the user row of the second admin does not carry
    the audit of the genesis set: it names the second admin himself as the
    user that created it. *)
Lemma second_admin_has_own_audit :
  exists gs tk pg pc,
    fst (seedGenesis scenario.steady (canon 3)) = inr (gs, tk) /\
    users (pending (snd (seedGenesis scenario.steady (canon 3))))
    = [pg; pc] /\
    userstore.Username pc = "pcollins" /\
    userstore.UserStamp pg = datastore.stamp_of (audit.First (audit gs)) /\
    datastore.CreateUserID (userstore.UserStamp pc)
    = datastore.NewNullUUID (userstore.UserID pc) /\
    datastore.CreateUserID (userstore.UserStamp pc)
    <> datastore.CreateUserID
         (datastore.stamp_of (audit.First (audit gs))) /\
    userstore.UserStamp pc <> datastore.stamp_of (audit.First (audit gs)).
Proof.
  vm_compute. do 4 eexists. repeat split; discriminate.
Qed.

(* ------------------------------------------------------------------ *)
(** ** More on the seed *)
(* ------------------------------------------------------------------ *)

(** A second call of [Seed], after one that succeeded, fails on the
    precondition and leaves the tables of the first call as they are. *)
Theorem Seed_twice o1 o2 d resp w1 :
  Seed o1 (start d) = (inr resp, w1) ->
  exists e w2,
    Seed o2 (start (db w1)) = (inl e, w2) /\ db w2 = db w1 /\
    txn w2 = NoTx /\
    ((exists k1 k2, driver o2 0 read_kind = Affects k1 /\
                    driver o2 1 read_orgs = Affects k2) ->
     e = prior_data /\ Errs.KindOf e = Errs.Validation).
Proof.
  intro Hs. pose proof (Seed_run o1 d) as H. rewrite Hs in H.
  destruct H as (_ & k1 & k2 & kb & kc & r & evs & _ & _ & Hd & _).
  assert (Hg : has_genesis (db w1) = true)
    by (rewrite Hd; apply has_genesis_seeded).
  destruct (Seed_prior o2 (db w1) Hg) as (e & w2 & Hs2 & Hd2 & Ht2 & _ & He).
  exists e, w2. split; [exact Hs2|]. split; [exact Hd2|].
  split; [exact Ht2|].
  intro H. rewrite (He H). split; reflexivity.
Qed.

Lemma Seed_twice_witness :
  exists e w2,
    Seed scenario.steady
         (start (db (snd (Seed scenario.steady (start empty)))))
    = (inl e, w2) /\
    db w2 = db (snd (Seed scenario.steady (start empty))) /\
    e = prior_data.
Proof.
  assert (Hrun : exists resp,
             Seed scenario.steady (start empty)
             = (inr resp, snd (Seed scenario.steady (start empty)))).
  { vm_compute. eexists. reflexivity. }
  destruct Hrun as [resp Hrun].
  destruct (Seed_twice scenario.steady scenario.steady empty resp _ Hrun)
    as (e & w2 & Hs & Hd & _ & He).
  exists e, w2. split; [exact Hs|]. split; [exact Hd|].
  apply He. exists 1%Z, 1%Z. split; reflexivity.
Defined.

(** The precondition only reads: it leaves the tables and the
    transaction as they are and puts one or two questions; it passes
    exactly when both reads are answered and find no genesis data, and a
    first read that fails is returned as a [Database] error without the
    second read being made. *)
Theorem genesisHasOccurred_reads_only o w r w' :
  genesisHasOccurred o w = (r, w') ->
  db w' = db w /\ txn w' = txn w /\
  (ticks w < ticks w' <= ticks w + 2) /\
  (r = inr tt <->
   (exists k1 k2, driver o (ticks w) read_kind = Affects k1 /\
                  driver o (S (ticks w)) read_orgs = Affects k2) /\
   has_genesis (db w) = false) /\
  (forall msg, driver o (ticks w) read_kind = Fails msg ->
               r = inl (Errs.E Errs.Database (Errs.DriverErr msg)) /\
               ticks w' = S (ticks w)).
Proof.
  destruct w as [d t n l]. rewrite genesisHasOccurred_eq. cbn [db txn ticks].
  destruct (driver o n read_kind) as [msg|k1].
  - intros [= <- <-]. cbn [db txn ticks].
    split; [reflexivity|]. split; [reflexivity|]. split; [lia|]. split.
    + split; [discriminate|].
      intros ((k1 & k2 & Hk & _) & _). discriminate.
    + intros msg' [= <-]. split; reflexivity.
  - destruct (driver o (S n) read_orgs) as [msg|k2].
    + intros [= <- <-]. cbn [db txn ticks].
      split; [reflexivity|]. split; [reflexivity|]. split; [lia|]. split.
      * split; [discriminate|].
        intros ((k1' & k2 & _ & Hk) & _). discriminate.
      * intros msg'. discriminate.
    + intros [= <- <-]. cbn [db txn ticks].
      split; [reflexivity|]. split; [reflexivity|]. split; [lia|]. split.
      * destruct (has_genesis d); split.
        -- discriminate.
        -- intros [_ Hf]. discriminate.
        -- intros _. split; [eauto | reflexivity].
        -- reflexivity.
      * intros msg'. discriminate.
Qed.

Lemma genesisHasOccurred_reads_only_witness :
  db (snd (genesisHasOccurred scenario.steady (start scenario.genesis_tables)))
  = scenario.genesis_tables /\
  txn (snd (genesisHasOccurred scenario.steady
                               (start scenario.genesis_tables))) = NoTx.
Proof.
  destruct (genesisHasOccurred_reads_only scenario.steady
              (start scenario.genesis_tables) _ _ eq_refl)
    as (Hd & Ht & _).
  split; [exact Hd | exact Ht].
Defined.

(** The loop over the keys of an app: when it returns no error it has
    put one question per key and added to the transaction one api-key
    row per key, in the order of the keys, each for this app and
    attributed to the audit; when it returns an error, the error is of
    the [Database] kind and the transaction is rolled back. *)
Theorem insertAPIKeys_rows o a adt keys :
  forall w p r w',
    txn w = Open p -> insertAPIKeys o a adt keys w = (r, w') ->
    db w' = db w /\
    match r with
    | inr _ =>
        ticks w' = ticks w + List.length keys /\
        txn w' = Open (db_app p (mkDB [] [] []
                                      (map (api_key_row a adt) keys)
                                      [] [] []))
    | inl e => Errs.KindOf e = Errs.Database /\ txn w' = RolledBack
    end.
Proof.
  induction keys as [|key rest IH]; intros w p r w' Ht H.
  - cbn in H. injection H as <- <-. split; [reflexivity|].
    cbn [List.length map]. rewrite Nat.add_0_r.
    split; [reflexivity|]. rewrite Ht. f_equal.
    symmetry. apply db_app_empty_r.
  - destruct w as [d t n l]. cbn [txn] in Ht. subst t.
    cbn [insertAPIKeys] in H. unfold bind_or in H.
    rewrite tx_exec_open in H.
    destruct (driver o n _) as [msg|c].
    + rewrite RollbackTx_open in H. injection H as <- <-.
      repeat split.
    + destruct (Z.eqb c 1) eqn:Hc; cbn [negb] in H.
      * apply Z.eqb_eq in Hc. subst c.
        eapply IH in H as [Hd Hr]; [|reflexivity].
        split; [exact Hd|]. destruct r as [e|u]; [exact Hr|].
        destruct Hr as [Hticks Htx]. cbn [ticks List.length] in *.
        split; [lia|]. rewrite Htx. f_equal.
        rewrite db_app_assoc. reflexivity.
      * rewrite RollbackTx_open in H. injection H as <- <-.
        repeat split.
Qed.

Lemma insertAPIKeys_rows_witness :
  db (snd (insertAPIKeys scenario.steady scenario.some_app
             scenario.some_audit scenario.two_keys (canon 0)))
  = empty /\
  txn (snd (insertAPIKeys scenario.steady scenario.some_app
              scenario.some_audit scenario.two_keys (canon 0)))
  = Open (db_app empty
            (mkDB [] [] []
                  (map (api_key_row scenario.some_app scenario.some_audit)
                       scenario.two_keys)
                  [] [] [])).
Proof.
  destruct (insertAPIKeys_rows scenario.steady scenario.some_app
              scenario.some_audit scenario.two_keys (canon 0) empty
              (inr tt) _ eq_refl eq_refl) as [Hd [_ Ht]].
  split; [exact Hd | exact Ht].
Defined.

(** A step inside the transaction that succeeds is its run without
    failures, seen from the world it started in. *)
Lemma run_inr {A} o (c c' : M A) w p a w' :
  Sim o c c' w -> Framed c' -> txn w = Open p -> c w = (inr a, w') ->
  fst (c' (canon (ticks w))) = inr a /\
  w' = reframe (db w) p (log w) (snd (c' (canon (ticks w)))).
Proof.
  intros HS HF Ht Hs. unfold Sim in HS. rewrite Hs in HS.
  destruct HS as [Hc _].
  destruct w as [d t n l]. cbn [txn] in Ht. subst t.
  rewrite open_reframe, HF in Hc. cbn [db ticks log].
  remember (c' (canon n)) as g eqn:Eg. clear Eg.
  destruct g as [r0 w0]. cbn [fst snd] in *.
  injection Hc as -> <-. split; reflexivity.
Qed.

Lemma seedTest_inr o k w p ts w' :
  txn w = Open p -> seedTest o k w = (inr ts, w') ->
  fst (test_from o k (ticks w)) = inr ts /\
  w' = reframe (db w) p (log w) (snd (test_from o k (ticks w))).
Proof.
  intros Ht Hs. unfold test_from.
  exact (run_inr o (seedTest o k) (seedTest (cure o) k) w p ts w'
                 (Sim_seedTest o k w p Ht) (Framed_seedTest (cure o) k)
                 Ht Hs).
Qed.

Lemma test_from_shape o k n :
  exists ts rows,
    fst (test_from o k n) = inr ts /\
    txn (snd (test_from o k n)) = Open rows /\
    org.Kind_ (org ts) = k /\ org.Kind_ (app.Org (app ts)) = k /\
    org.Name (org ts) = "test" /\ user.Username (user ts) = "shackett" /\
    audit.First (audit ts) = audit.Last (audit ts) /\
    audit.App (audit.First (audit ts)) = app ts /\
    audit.User (audit.First (audit ts)) = user ts /\
    org_kind rows = [] /\
    map orgstore.OrgKindID_ (store.org rows) = [org.Kind_ID k] /\
    map orgstore.OrgStamp (store.org rows)
    = [datastore.stamp_of (audit.First (audit ts))] /\
    map appstore.AppStamp (store.app rows)
    = [datastore.stamp_of (audit.First (audit ts))] /\
    map appstore.KeyStamp (app_api_key rows)
    = [datastore.stamp_of (audit.First (audit ts))] /\
    map userstore.UserStamp (users rows)
    = [datastore.stamp_of (audit.First (audit ts))] /\
    map userstore.UserID (users rows) = [user.ID (user ts)].
Proof.
  destruct o, k. vm_compute. do 2 eexists. repeat split.
Qed.

(** A test step that succeeds has made the org of the kind it was given,
    with the app holding a copy of that org, and has added no org kind;
    its org, app, api-key and user rows carry one audit, of the test app
    and the test user, who is thus recorded as his own creator. *)
Theorem seedTest_threads_kind o k w p ts w' :
  txn w = Open p -> seedTest o k w = (inr ts, w') ->
  org.Kind_ (org ts) = k /\ org.Kind_ (app.Org (app ts)) = k /\
  org.Name (org ts) = "test" /\ user.Username (user ts) = "shackett" /\
  audit.First (audit ts) = audit.Last (audit ts) /\
  audit.App (audit.First (audit ts)) = app ts /\
  audit.User (audit.First (audit ts)) = user ts /\
  exists rows,
    txn w' = Open (db_app p rows) /\
    org_kind rows = [] /\
    map orgstore.OrgKindID_ (store.org rows) = [org.Kind_ID k] /\
    map orgstore.OrgStamp (store.org rows)
    = [datastore.stamp_of (audit.First (audit ts))] /\
    map appstore.AppStamp (store.app rows)
    = [datastore.stamp_of (audit.First (audit ts))] /\
    map appstore.KeyStamp (app_api_key rows)
    = [datastore.stamp_of (audit.First (audit ts))] /\
    map userstore.UserStamp (users rows)
    = [datastore.stamp_of (audit.First (audit ts))] /\
    map userstore.UserID (users rows) = [user.ID (user ts)].
Proof.
  intros Ht Hs.
  destruct (seedTest_inr o k w p ts w' Ht Hs) as [Hr Hw].
  destruct (test_from_shape o k (ticks w))
    as (ts' & rows & Hr' & Hrows & H1 & H2 & H3 & H4 & H5 & H6 & H7 & Hrest).
  rewrite Hr in Hr'. injection Hr' as <-.
  do 7 (split; [assumption|]).
  exists rows. split; [|exact Hrest].
  rewrite Hw. unfold reframe. cbn [txn]. now rewrite Hrows.
Qed.

Lemma seedTest_threads_kind_witness :
  exists ts,
    fst (seedTest scenario.steady (org.mkKind 7%N "test" "t") (canon 0))
    = inr ts /\
    org.Kind_ (org ts) = org.mkKind 7%N "test" "t".
Proof.
  assert (Hrun : exists ts,
             seedTest scenario.steady (org.mkKind 7%N "test" "t") (canon 0)
             = (inr ts,
                snd (seedTest scenario.steady (org.mkKind 7%N "test" "t")
                              (canon 0)))).
  { vm_compute. eexists. reflexivity. }
  destruct Hrun as [ts Hrun].
  destruct (seedTest_threads_kind scenario.steady _ (canon 0) empty ts _
              eq_refl Hrun) as [Hk _].
  exists ts. split; [rewrite Hrun; reflexivity | exact Hk].
Defined.

Lemma genesis_from_kinds o n :
  exists gs tk rows sk,
    fst (genesis_from o n) = inr (gs, tk) /\
    txn (snd (genesis_from o n)) = Open rows /\
    org.Kind_ExternalID (org.Kind_ (org gs)) = "genesis" /\
    org.Kind_ExternalID tk = "test" /\
    org.Kind_ (app.Org (app gs)) = org.Kind_zero /\
    user.Org (user gs) = app.Org (app gs) /\
    org.ID (app.Org (app gs)) = org.ID (org gs) /\
    map orgstore.OrgKindID (org_kind rows)
    = [org.Kind_ID (org.Kind_ (org gs)); org.Kind_ID tk; sk] /\
    map orgstore.OrgKindID_ (store.org rows)
    = [org.Kind_ID (org.Kind_ (org gs))] /\
    map appstore.OrgID (store.app rows) = [org.ID (org gs)].
Proof.
  destruct o. vm_compute. do 4 eexists. repeat split.
Qed.

(** A genesis step that succeeds returns the org with the genesis kind it
    has just written and the test kind for the step after it; the org the
    app and the first admin hold is the copy taken before the kind was
    set, so it still has the zero kind, while the org row names the
    genesis org-kind row and the app row the org. *)
Theorem seedGenesis_kinds o w p gs tk w' :
  txn w = Open p -> seedGenesis o w = (inr (gs, tk), w') ->
  org.Kind_ExternalID (org.Kind_ (org gs)) = "genesis" /\
  org.Kind_ExternalID tk = "test" /\
  org.Kind_ (app.Org (app gs)) = org.Kind_zero /\
  user.Org (user gs) = app.Org (app gs) /\
  org.ID (app.Org (app gs)) = org.ID (org gs) /\
  exists rows sk,
    txn w' = Open (db_app p rows) /\
    map orgstore.OrgKindID (org_kind rows)
    = [org.Kind_ID (org.Kind_ (org gs)); org.Kind_ID tk; sk] /\
    map orgstore.OrgKindID_ (store.org rows)
    = [org.Kind_ID (org.Kind_ (org gs))] /\
    map appstore.OrgID (store.app rows) = [org.ID (org gs)].
Proof.
  intros Ht Hs.
  destruct (seedGenesis_inr o w p gs tk w' Ht Hs) as [Hr Hw].
  destruct (genesis_from_kinds o (ticks w))
    as (gs' & tk' & rows & sk & Hr' & Hrows & H1 & H2 & H3 & H4 & H5 & Hrest).
  rewrite Hr in Hr'. injection Hr' as <- <-.
  do 5 (split; [assumption|]).
  exists rows, sk. split; [|exact Hrest].
  rewrite Hw. unfold reframe. cbn [txn]. now rewrite Hrows.
Qed.

Lemma seedGenesis_kinds_witness :
  exists gs tk,
    fst (seedGenesis scenario.steady (canon 3)) = inr (gs, tk) /\
    org.Kind_ExternalID (org.Kind_ (org gs)) = "genesis" /\
    org.Kind_ (app.Org (app gs)) = org.Kind_zero.
Proof.
  assert (Hrun : exists gs tk,
             seedGenesis scenario.steady (canon 3)
             = (inr (gs, tk), snd (seedGenesis scenario.steady (canon 3)))).
  { vm_compute. do 2 eexists. reflexivity. }
  destruct Hrun as (gs & tk & Hrun).
  destruct (seedGenesis_kinds scenario.steady (canon 3) empty gs tk _
              eq_refl Hrun) as (H1 & _ & H3 & _).
  exists gs, tk. split; [rewrite Hrun; reflexivity|].
  split; [exact H1 | exact H3].
Defined.

Lemma seeded_rows_linked o :
  exists g t,
    map orgstore.OrgID (store.org (seeded_rows o)) = [g; t] /\
    map appstore.OrgID (store.app (seeded_rows o)) = [g; t] /\
    map personstore.OrgID (person (seeded_rows o)) = [g; g; t] /\
    map userstore.OrgID (users (seeded_rows o)) = [g; g; t] /\
    map orgstore.OrgKindID_ (store.org (seeded_rows o))
    = firstn 2 (map orgstore.OrgKindID (org_kind (seeded_rows o))) /\
    map appstore.CreateAppID (store.app (seeded_rows o))
    = map appstore.AppID (store.app (seeded_rows o)).
Proof.
  destruct o. vm_compute. do 2 eexists. repeat split.
Qed.

(** The rows a successful call adds refer to one another: the two orgs
    are of the first two kinds added, genesis and test; each app belongs
    to its org and names itself as the app that created it; the two
    admins belong to the genesis org and the test user to the test
    org. *)
Theorem Seed_rows_linked o d resp w' :
  Seed o (start d) = (inr resp, w') ->
  exists rows g t,
    db w' = db_app d rows /\
    map orgstore.OrgID (store.org rows) = [g; t] /\
    map appstore.OrgID (store.app rows) = [g; t] /\
    map personstore.OrgID (person rows) = [g; g; t] /\
    map userstore.OrgID (users rows) = [g; g; t] /\
    map orgstore.OrgKindID_ (store.org rows)
    = firstn 2 (map orgstore.OrgKindID (org_kind rows)) /\
    map appstore.CreateAppID (store.app rows)
    = map appstore.AppID (store.app rows).
Proof.
  intro Hs. pose proof (Seed_run o d) as H. rewrite Hs in H.
  destruct H as (_ & k1 & k2 & kb & kc & r & evs & _ & _ & Hd & _).
  destruct (seeded_rows_linked o) as (g & t & Hrest).
  exists (seeded_rows o), g, t. split; [exact Hd | exact Hrest].
Qed.

Lemma Seed_rows_linked_witness :
  exists rows g t,
    db (snd (Seed scenario.steady (start empty))) = db_app empty rows /\
    map orgstore.OrgID (store.org rows) = [g; t] /\
    map appstore.OrgID (store.app rows) = [g; t].
Proof.
  assert (Hrun : exists resp,
             Seed scenario.steady (start empty)
             = (inr resp, snd (Seed scenario.steady (start empty)))).
  { vm_compute. eexists. reflexivity. }
  destruct Hrun as [resp Hrun].
  destruct (Seed_rows_linked scenario.steady empty resp _ Hrun)
    as (rows & g & t & Hd & Ho & Ha & _).
  exists rows, g, t. split; [exact Hd|]. split; [exact Ho | exact Ha].
Defined.

Lemma seeded_response o :
  exists r,
    fst (seeded o) = inr r /\
    or_Name (g_OrgResponse (GenesisResponse_ (response r))) = "genesis" /\
    ar_Name (g_AppResponse (GenesisResponse_ (response r))) = "WOPR" /\
    or_Name (t_OrgResponse (TestResponse_ (response r))) = "test" /\
    ar_Name (t_AppResponse (TestResponse_ (response r))) = "test" /\
    or_Audit (g_OrgResponse (GenesisResponse_ (response r)))
    = ar_Audit (g_AppResponse (GenesisResponse_ (response r))) /\
    or_Audit (t_OrgResponse (TestResponse_ (response r)))
    = ar_Audit (t_AppResponse (TestResponse_ (response r))) /\
    CreatedBy (or_Audit (g_OrgResponse (GenesisResponse_ (response r))))
    = "pgabriel" /\
    LastUpdatedBy (or_Audit (g_OrgResponse (GenesisResponse_ (response r))))
    = "pgabriel" /\
    CreatedBy (or_Audit (t_OrgResponse (TestResponse_ (response r))))
    = "shackett" /\
    LastUpdatedBy (or_Audit (t_OrgResponse (TestResponse_ (response r))))
    = "shackett" /\
    CreatedAt (or_Audit (g_OrgResponse (GenesisResponse_ (response r))))
    = LastUpdatedAt
        (or_Audit (g_OrgResponse (GenesisResponse_ (response r)))) /\
    CreatedAt (or_Audit (t_OrgResponse (TestResponse_ (response r))))
    = LastUpdatedAt
        (or_Audit (t_OrgResponse (TestResponse_ (response r)))).
Proof.
  destruct o. vm_compute. eexists. repeat split.
Qed.

(** The response of a successful call names the genesis org and the
    "WOPR" app, and the test org and app; org and app of a set show the
    same audit, created and last updated by the same user, "pgabriel"
    for the genesis set and "shackett" for the test set, at the same
    moment. *)
Theorem Seed_response o d resp w' :
  Seed o (start d) = (inr resp, w') ->
  or_Name (g_OrgResponse (GenesisResponse_ resp)) = "genesis" /\
  ar_Name (g_AppResponse (GenesisResponse_ resp)) = "WOPR" /\
  or_Name (t_OrgResponse (TestResponse_ resp)) = "test" /\
  ar_Name (t_AppResponse (TestResponse_ resp)) = "test" /\
  or_Audit (g_OrgResponse (GenesisResponse_ resp))
  = ar_Audit (g_AppResponse (GenesisResponse_ resp)) /\
  or_Audit (t_OrgResponse (TestResponse_ resp))
  = ar_Audit (t_AppResponse (TestResponse_ resp)) /\
  CreatedBy (or_Audit (g_OrgResponse (GenesisResponse_ resp))) = "pgabriel" /\
  LastUpdatedBy (or_Audit (g_OrgResponse (GenesisResponse_ resp)))
  = "pgabriel" /\
  CreatedBy (or_Audit (t_OrgResponse (TestResponse_ resp))) = "shackett" /\
  LastUpdatedBy (or_Audit (t_OrgResponse (TestResponse_ resp)))
  = "shackett" /\
  CreatedAt (or_Audit (g_OrgResponse (GenesisResponse_ resp)))
  = LastUpdatedAt (or_Audit (g_OrgResponse (GenesisResponse_ resp))) /\
  CreatedAt (or_Audit (t_OrgResponse (TestResponse_ resp)))
  = LastUpdatedAt (or_Audit (t_OrgResponse (TestResponse_ resp))).
Proof.
  intro Hs. pose proof (Seed_run o d) as H. rewrite Hs in H.
  destruct H as (_ & k1 & k2 & kb & kc & r & evs & Hr & -> & _).
  destruct (seeded_response o) as (r' & Hr' & Hrest).
  rewrite Hr in Hr'. injection Hr' as <-. exact Hrest.
Qed.

Lemma Seed_response_witness :
  exists resp,
    fst (Seed scenario.steady (start empty)) = inr resp /\
    CreatedBy (or_Audit (g_OrgResponse (GenesisResponse_ resp)))
    = "pgabriel" /\
    CreatedBy (or_Audit (t_OrgResponse (TestResponse_ resp))) = "shackett".
Proof.
  assert (Hrun : exists resp,
             Seed scenario.steady (start empty)
             = (inr resp, snd (Seed scenario.steady (start empty)))).
  { vm_compute. eexists. reflexivity. }
  destruct Hrun as [resp Hrun].
  destruct (Seed_response scenario.steady empty resp _ Hrun)
    as (_ & _ & _ & _ & _ & _ & Hg & _ & Ht & _).
  exists resp. split; [rewrite Hrun; reflexivity|].
  split; [exact Hg | exact Ht].
Defined.

End SeedFacts.
